(** * Langbly JavaScript SDK: the retrying HTTP client (src/src/client.ts)

    A shallow embedding of the [Langbly] class: its constructor, the public
    operations [translate], [detect] and [languages], and the private request
    helpers [postWithRetry], [fetchWithRetry], [throwForStatus],
    [parseRetryAfter], [getRetryDelay], [backoffDelay] and [sleep].

    Asynchronous code is sequential here (every promise is awaited at once),
    so a method is a computation over an explicit state: the client object
    ([this]) and the chronological trace of the effects performed ([fetch]
    calls and [setTimeout] sleeps).  The remote server is a function from the
    number of earlier fetches and the request to the outcome of the fetch. *)

From Stdlib Require Import ZArith QArith Qminmax Qpower Bool List String Ascii Lia.
From Stdlib Require Import DecimalString.
From Stdlib Require Qcanon.
From Equations Require Import Equations.
Import ListNotations.

Set Warnings "-register-all".
Local Open Scope string_scope.
Local Open Scope Z_scope.

(* ===================================================================== *)
(** ** JavaScript numbers *)
(* ===================================================================== *)

(** A JavaScript [number], that is a binary64 value: [NaN], an infinity, the
    negative zero, or a finite value kept as the rational it is, in lowest
    terms ([Fin 0] is the positive zero).  Every operation below rounds its
    exact result to the nearest binary64 value, ties to even, as the
    language does. *)
Inductive number : Type :=
| NaN
| Infinity (negative : bool)
| Fin (q : Q)
| NegZero.

Definition num (z : Z) : number := Fin (inject_Z z).

(** [Number.isFinite]. *)
Definition Number_isFinite (x : number) : bool :=
  match x with Fin _ | NegZero => true | _ => false end.

Definition Qsign_neg (q : Q) : bool := Qnum q <? 0.
Definition Qis_zero (q : Q) : bool := Qnum q =? 0.

(** Rounding of an exact value to binary64. *)
Module Binary64.

(** [n / d] rounded to the nearest integer, ties to even, for [0 <= n] and
    [0 < d]. *)
Definition round_div (n d : Z) : Z :=
  let m := n / d in
  match 2 * (n mod d) ?= d with
  | Lt => m
  | Gt => m + 1
  | Eq => if Z.even m then m else m + 1
  end.

(** [a / d < 2 ^ l], for positive [a] and [d]. *)
Definition below_pow2 (a d l : Z) : bool :=
  if 0 <=? l then a <? d * 2 ^ l else a * 2 ^ (- l) <? d.

(** The exponent of the last place of [a / d]: 53 significant bits, and no
    place below [2 ^ -1074]. *)
Definition last_place (a d : Z) : Z :=
  let l := Z.log2 a - Z.log2 d in
  Z.max (-1074) ((if below_pow2 a d l then l - 1 else l) - 52).

(** [a / d] in units of the last place. *)
Definition significand (a d : Z) : Z :=
  let e := last_place a d in
  if 0 <=? e then round_div a (d * 2 ^ e) else round_div (a * 2 ^ (- e)) d.

Definition zero (negative : bool) : number :=
  if negative then NegZero else Fin 0.

(** The binary64 value nearest to [q]: an infinity from [2 ^ 1024] on, a
    zero of the sign of [q] below half of [2 ^ -1074]. *)
Definition round (q : Q) : number :=
  let n := Qnum (Qred q) in
  let d := Zpos (Qden (Qred q)) in
  if n =? 0 then Fin 0
  else
    let e := last_place (Z.abs n) d in
    let m := significand (Z.abs n) d in
    if m =? 0 then zero (n <? 0)
    else if (0 <=? e) && (2 ^ 1024 <=? m * 2 ^ e) then Infinity (n <? 0)
    else Fin (Qred (inject_Z (Z.sgn n * m) * Qpower 2 e)).

End Binary64.

(** The sign bit, the zeros and the infinities. *)
Definition sign_bit (x : number) : bool :=
  match x with
  | NaN => false
  | Infinity n => n
  | Fin q => Qsign_neg q
  | NegZero => true
  end.

Definition is_zero (x : number) : bool :=
  match x with
  | Fin q => Qis_zero q
  | NegZero => true
  | _ => false
  end.

Definition is_infinite (x : number) : bool :=
  match x with Infinity _ => true | _ => false end.

(** The [*] operator. *)
Definition num_mul (x y : number) : number :=
  match x, y with
  | NaN, _ | _, NaN => NaN
  | Fin a, Fin b =>
      if Qis_zero a || Qis_zero b
      then Binary64.zero (xorb (sign_bit x) (sign_bit y))
      else Binary64.round (a * b)
  | _, _ =>
      let negative := xorb (sign_bit x) (sign_bit y) in
      if is_infinite x || is_infinite y then
        if is_zero x || is_zero y then NaN else Infinity negative
      else Binary64.zero negative
  end.

(** [2 ** e] for an integer exponent [e]. *)
Definition pow2 (e : Z) : number := Binary64.round (Qpower 2 e).

(** [Math.min] of two arguments; the negative zero is below the positive
    one. *)
Definition Math_min (x y : number) : number :=
  match x, y with
  | NaN, _ | _, NaN => NaN
  | Infinity true, _ | _, Infinity true => Infinity true
  | Infinity false, v | v, Infinity false => v
  | Fin a, Fin b => Fin (Qmin a b)
  | NegZero, NegZero => NegZero
  | NegZero, Fin b | Fin b, NegZero => if Qsign_neg b then Fin b else NegZero
  end.

(* ===================================================================== *)
(** ** [Number(string)]: the StringToNumber conversion *)
(* ===================================================================== *)

Module StringToNumber.

(** White space and line terminators among the code units below 256, which
    are all that the value of a header holds: TAB, LF, VT, FF, CR, the
    space and the no-break space U+00A0. *)
Definition is_ws (c : ascii) : bool :=
  let n := nat_of_ascii c in
  (Nat.eqb n 32 || Nat.eqb n 160 || (Nat.leb 9 n && Nat.leb n 13))%bool.

Fixpoint drop_ws (l : list ascii) : list ascii :=
  match l with
  | c :: r => if is_ws c then drop_ws r else l
  | [] => []
  end.

Definition trim (l : list ascii) : list ascii :=
  rev (drop_ws (rev (drop_ws l))).

(** The value of a digit in the given base (2, 8, 10 or 16). *)
Definition digit (base : Z) (c : ascii) : option Z :=
  let n := Z.of_nat (nat_of_ascii c) in
  let v :=
    if (48 <=? n) && (n <=? 57) then Some (n - 48)
    else if (97 <=? n) && (n <=? 102) then Some (n - 87)
    else if (65 <=? n) && (n <=? 70) then Some (n - 55)
    else None in
  match v with
  | Some d => if d <? base then Some d else None
  | None => None
  end.

(** Reads the longest prefix of digits: the accumulated value, how many
    digits were read, and the rest of the input. *)
Fixpoint digits (base : Z) (acc : Z) (count : nat) (l : list ascii)
  : Z * nat * list ascii :=
  match l with
  | c :: r =>
      match digit base c with
      | Some d => digits base (acc * base + d) (S count) r
      | None => (acc, count, l)
      end
  | [] => (acc, count, [])
  end.

(** The Number value of a mathematical value that is not negative. *)
Definition rounded (q : Q) : number := Binary64.round q.

(** NonDecimalIntegerLiteral after its two-character prefix. *)
Definition radix_literal (base : Z) (l : list ascii) : number :=
  match digits base 0 0%nat l with
  | (v, S _, []) => rounded (inject_Z v)
  | _ => NaN
  end.

(** ExponentPart (optional), which must end the literal: [Some e]. *)
Definition exponent (l : list ascii) : option Z :=
  match l with
  | [] => Some 0
  | c :: r =>
      if (Ascii.eqb c "e" || Ascii.eqb c "E")%bool then
        let '(neg, r') :=
          match r with
          | s :: r' =>
              if Ascii.eqb s "-" then (true, r')
              else if Ascii.eqb s "+" then (false, r')
              else (false, r)
          | [] => (false, r)
          end in
        match digits 10 0 0%nat r' with
        | (e, S _, []) => Some (if neg then - e else e)
        | _ => None
        end
      else None
  end.

(** StrUnsignedDecimalLiteral without the [Infinity] alternative. *)
Definition unsigned_decimal (l : list ascii) : number :=
  let '(ip, ni, r1) := digits 10 0 0%nat l in
  let '(m, nf, r2) :=
    match r1 with
    | c :: r =>
        if Ascii.eqb c "." then digits 10 ip 0%nat r else (ip, 0%nat, r1)
    | [] => (ip, 0%nat, r1)
    end in
  match (ni + nf)%nat with
  | O => NaN
  | S _ =>
      match exponent r2 with
      | Some e => rounded (inject_Z m * Qpower 10 (e - Z.of_nat nf))
      | None => NaN
      end
  end.

Definition negate (x : number) : number :=
  match x with
  | NaN => NaN
  | Infinity n => Infinity (negb n)
  | Fin q => if Qis_zero q then NegZero else Fin (Qred (- q))
  | NegZero => Fin 0
  end.

Definition infinity_word : list ascii := list_ascii_of_string "Infinity".

Definition list_ascii_eqb (a b : list ascii) : bool :=
  String.eqb (string_of_list_ascii a) (string_of_list_ascii b).

Definition unsigned_literal (l : list ascii) : number :=
  if list_ascii_eqb l infinity_word then Infinity false
  else unsigned_decimal l.

Definition literal (l : list ascii) : number :=
  match l with
  | [] => num 0
  | c :: r =>
      if Ascii.eqb c "-" then negate (unsigned_literal r)
      else if Ascii.eqb c "+" then unsigned_literal r
      else if Ascii.eqb c "0" then
        match r with
        | p :: r' =>
            if (Ascii.eqb p "x" || Ascii.eqb p "X")%bool then radix_literal 16 r'
            else if (Ascii.eqb p "o" || Ascii.eqb p "O")%bool then radix_literal 8 r'
            else if (Ascii.eqb p "b" || Ascii.eqb p "B")%bool then radix_literal 2 r'
            else unsigned_literal l
        | [] => unsigned_literal l
        end
      else unsigned_literal l
  end.

End StringToNumber.

(** [Number(s)] for the value [s] of a header, one character per code unit:
    the empty or all-blank string is [0], a numeric literal is the binary64
    value nearest to its value, anything else is [NaN]. *)
Definition Number (s : string) : number :=
  StringToNumber.literal (StringToNumber.trim (list_ascii_of_string s)).

(* ===================================================================== *)
(** ** JavaScript values as they come out of [JSON.parse] *)
(* ===================================================================== *)

(** A parsed JSON document, plus [undefined] (the value of a missing
    property).  An object is the list of its own properties. *)
Inductive jsval : Type :=
| Undefined
| Null
| JBool (b : bool)
| JNum (n : number)
| JStr (s : string)
| JArr (items : list jsval)
| JObj (fields : list (string * jsval)).

Fixpoint assoc {A : Type} (k : string) (l : list (string * A)) : option A :=
  match l with
  | [] => None
  | (k', v) :: r => if String.eqb k k' then Some v else assoc k r
  end.

(** [v.k] for a value that is neither [null] nor [undefined]; none of the
    property names the client reads exists on a prototype. *)
Definition own_prop (k : string) (v : jsval) : jsval :=
  match v with
  | JObj fields => match assoc k fields with Some x => x | None => Undefined end
  | _ => Undefined
  end.

Definition is_nullish (v : jsval) : bool :=
  match v with Undefined | Null => true | _ => false end.

(** [v?.k]. *)
Definition opt_prop (k : string) (v : jsval) : jsval :=
  if is_nullish v then Undefined else own_prop k v.

(** [v ?? d]. *)
Definition nullish_or (v d : jsval) : jsval :=
  if is_nullish v then d else v.

(** The leading character of a string, as [s[0]] gives it. *)
Definition utf8_len (c : ascii) : nat :=
  let n := nat_of_ascii c in
  if Nat.ltb n 192 then 1 else if Nat.ltb n 224 then 2
  else if Nat.ltb n 240 then 3 else 4.

Definition first_char (s : string) : jsval :=
  match s with
  | EmptyString => Undefined
  | String c _ => JStr (substring 0 (utf8_len c) s)
  end.

(** [v[0]] for a value that is neither [null] nor [undefined]. *)
Definition own_index0 (v : jsval) : jsval :=
  match v with
  | JArr (x :: _) => x
  | JStr s => first_char s
  | JObj _ => own_prop "0" v
  | _ => Undefined
  end.

(* ===================================================================== *)
(** ** Exceptions *)
(* ===================================================================== *)

(** What the client can throw.  [LangblyError], [RateLimitError] and
    [AuthenticationError] carry the arguments of their constructors; the
    message is the value handed to [super(message)].  [TypeError] and
    [SyntaxError] are raised by the runtime (property access on [null] or
    [undefined], a call of a non-function, a body that is not JSON). *)
Inductive exn : Type :=
| Error_ (message : string)
| TypeError
| SyntaxError
| LangblyError (message : jsval) (status : Z) (code : jsval)
| RateLimitError (message : jsval) (retryAfter : option number)
| AuthenticationError (message : jsval).

(** The [name] field set by each constructor. *)
Definition exn_name (e : exn) : string :=
  match e with
  | Error_ _ => "Error"
  | TypeError => "TypeError"
  | SyntaxError => "SyntaxError"
  | LangblyError _ _ _ => "LangblyError"
  | RateLimitError _ _ => "RateLimitError"
  | AuthenticationError _ => "AuthenticationError"
  end.

(** The [status] field: [RateLimitError] and [AuthenticationError] pass 429
    and 401 to [super]; the other errors have none. *)
Definition exn_status (e : exn) : option Z :=
  match e with
  | LangblyError _ s _ => Some s
  | RateLimitError _ _ => Some 429
  | AuthenticationError _ => Some 401
  | _ => None
  end.

(** The [code] field. *)
Definition exn_code (e : exn) : option jsval :=
  match e with
  | LangblyError _ _ c => Some c
  | RateLimitError _ _ => Some (JStr "RATE_LIMITED")
  | AuthenticationError _ => Some (JStr "UNAUTHENTICATED")
  | _ => None
  end.

(** [new LangblyError(message)] with the default [status = 0], [code = ""]. *)
Definition LangblyError_default (message : string) : exn :=
  LangblyError (JStr message) 0 (JStr "").

Inductive result (A : Type) : Type :=
| Ok (a : A)
| Throw (e : exn).
Arguments Ok {A} a.
Arguments Throw {A} e.

(* ===================================================================== *)
(** ** Requests, responses and the world *)
(* ===================================================================== *)

(** The parts of a [Response] the client reads: [ok], [status],
    [statusText], [headers.get("retry-after")] ([None] is [null]; a value is
    a string of code units below 256, one per byte of the header) and the
    outcome of [json()] ([None]: the promise rejects). *)
Record Response : Type := {
  ok : bool;
  status : Z;
  statusText : string;
  retry_after : option string;
  json : option jsval
}.

(** The arguments of one [fetch] call.  [body] is the value handed to
    [JSON.stringify]; [signal] is the argument of [AbortSignal.timeout]. *)
Record Request : Type := {
  url : string;
  method : string;
  headers : list (string * string);
  body : option jsval;
  signal : Z
}.

(** A fetch resolves with a response or rejects; [Rejected m] is a rejection
    whose error, as [lastError] keeps it, has message [m]. *)
Inductive FetchOutcome : Type :=
| Resolved (resp : Response)
| Rejected (message : string).

(** The remote side: the outcome of the [n]-th fetch (from 0) of a request. *)
Definition Server : Type := nat -> Request -> FetchOutcome.

Inductive event : Type :=
| EvFetch (req : Request)
| EvSleep (ms : number).

Definition is_fetch (e : event) : bool :=
  match e with EvFetch _ => true | EvSleep _ => false end.

Definition fetch_count (tr : list event) : nat :=
  List.length (filter is_fetch tr).

(** The client object.  [maxRetries] is a count of retries and [timeout] a
    number of milliseconds: integers, as the loop counter [attempt] is. *)
Record Langbly : Type := {
  apiKey : string;
  baseUrl : string;
  timeout : Z;
  maxRetries : Z
}.

Record State : Type := {
  this : Langbly;
  trace : list event
}.

(** Computations: read and write the state, return or throw. *)
Definition M (A : Type) : Type := State -> result A * State.

Definition ret {A} (a : A) : M A := fun st => (Ok a, st).
Definition throw {A} (e : exn) : M A := fun st => (Throw e, st).
Definition bind {A B} (m : M A) (k : A -> M B) : M B :=
  fun st =>
    match m st with
    | (Ok a, st') => k a st'
    | (Throw e, st') => (Throw e, st')
    end.

Declare Scope js_scope.
Delimit Scope js_scope with js.
Notation "x <- m ;; k" := (bind m (fun x => k))
  (at level 61, m at next level, right associativity) : js_scope.
Notation "m ;;; k" := (bind m (fun _ => k))
  (at level 61, right associativity) : js_scope.
Local Open Scope js_scope.

(** Reading a field of [this]. *)
Definition this_field {A} (f : Langbly -> A) : M A :=
  fun st => (Ok (f (this st)), st).

Definition emit (e : event) : M unit :=
  fun st => (Ok tt, {| this := this st; trace := trace st ++ [e] |}).

(** [await fetch(...)] under [try]: the outcome is handed back as a value,
    the [catch] clause is the [Rejected] branch of the caller. *)
Definition fetch (srv : Server) (req : Request) : M FetchOutcome :=
  fun st =>
    (Ok (srv (fetch_count (trace st)) req),
     {| this := this st; trace := trace st ++ [EvFetch req] |}).

(** [sleep(ms)]. *)
Definition sleep (ms : number) : M unit := emit (EvSleep ms).

(** [v.k], which throws on [null] and [undefined]. *)
Definition prop (k : string) (v : jsval) : M jsval :=
  if is_nullish v then throw TypeError else ret (own_prop k v).

(** [v[0]]. *)
Definition index0 (v : jsval) : M jsval :=
  if is_nullish v then throw TypeError else ret (own_index0 v).

(** [await resp.json()]. *)
Definition resp_json (resp : Response) : M jsval :=
  match json resp with
  | Some v => ret v
  | None => throw SyntaxError
  end.

(* ===================================================================== *)
(** ** The client *)
(* ===================================================================== *)

(** [LangblyOptions]; an optional or missing field is [None]. *)
Module LangblyOptions.
Record t : Type := {
  apiKey : option string;
  baseUrl : option string;
  timeout : option Z;
  maxRetries : option Z
}.
End LangblyOptions.

(** [TranslateOptions]. *)
Module TranslateOptions.
Record t : Type := {
  target : string;
  source : option string;
  format : option string
}.
End TranslateOptions.

(** [Translation], [Detection] and [Language], with the values the server
    sent in their fields. *)
Record Translation : Type := {
  text : jsval;
  source : jsval;
  model : jsval
}.

Record Detection : Type := {
  language : jsval;
  confidence : jsval
}.

Record Language : Type := {
  code : jsval;
  name : jsval
}.

(** The [RequestInit] handed to [fetchWithRetry]. *)
Record RequestInit : Type := {
  init_method : string;
  init_headers : option (list (string * string));
  init_body : option jsval
}.

(** Truthiness of an optional string: [undefined] and [""] are falsy. *)
Definition truthy (o : option string) : bool :=
  match o with
  | Some s => negb (String.eqb s "")
  | None => false
  end.

(** [s.replace(/\/$/, "")]: one trailing slash is removed. *)
Fixpoint strip_trailing_slash (s : string) : string :=
  match s with
  | EmptyString => EmptyString
  | String c EmptyString => if Ascii.eqb c "/" then EmptyString else s
  | String c r => String c (strip_trailing_slash r)
  end.

Definition or_default {A} (o : option A) (d : A) : A :=
  match o with Some a => a | None => d end.

(** [new Langbly(options)]. *)
Definition constructor (options : LangblyOptions.t) : result Langbly :=
  if negb (truthy (LangblyOptions.apiKey options)) then
    Throw (Error_ "apiKey is required")
  else
    Ok {| apiKey := or_default (LangblyOptions.apiKey options) "";
          baseUrl := strip_trailing_slash
                       (or_default (LangblyOptions.baseUrl options)
                                   "https://api.langbly.com");
          timeout := or_default (LangblyOptions.timeout options) 30000;
          maxRetries := or_default (LangblyOptions.maxRetries options) 2 |}.

Definition RETRIABLE_STATUS_CODES : list Z := [429; 500; 502; 503; 504].

(** [RETRIABLE_STATUS_CODES.has(s)]. *)
Definition retriable (s : Z) : bool :=
  existsb (Z.eqb s) RETRIABLE_STATUS_CODES.

(** [backoffDelay(attempt)]. *)
Definition backoffDelay (attempt : Z) : number :=
  Math_min (num_mul (num 500) (pow2 attempt)) (num 10000).

(** [getRetryDelay(resp, attempt)]. *)
Definition getRetryDelay (resp : Response) (attempt : Z) : number :=
  let retryAfter := retry_after resp in
  let fallback := Math_min (num_mul (num 500) (pow2 attempt)) (num 10000) in
  if truthy retryAfter then
    let value := Number (or_default retryAfter "") in
    if Number_isFinite value then Math_min (num_mul value (num 1000)) (num 30000)
    else fallback
  else fallback.

(** [parseRetryAfter(resp)]; [None] is [null]. *)
Definition parseRetryAfter (resp : Response) : option number :=
  let header := retry_after resp in
  if negb (truthy header) then None
  else
    let value := Number (or_default header "") in
    if Number_isFinite value then Some value else None.

(** The [message] and [code] that [throwForStatus] reads from the body. *)
Definition error_details (resp : Response) : jsval * jsval :=
  let message := JStr (statusText resp) in
  let code := JStr "" in
  match json resp with
  | Some err =>
      (nullish_or (opt_prop "message" (opt_prop "error" err)) message,
       nullish_or (opt_prop "status" (opt_prop "error" err)) (JStr ""))
  | None => (message, code)
  end.

(** [throwForStatus(resp)]: it never returns. *)
Definition throwForStatus (resp : Response) : M Empty_set :=
  let '(message, code) := error_details resp in
  if status resp =? 401 then throw (AuthenticationError message)
  else if status resp =? 429 then
    let retryAfter := parseRetryAfter resp in
    throw (RateLimitError message retryAfter)
  else throw (LangblyError message (status resp) code).

Definition never {A} (m : M Empty_set) : M A :=
  x <- m ;; match x with end.

(** An integer inside a template literal. *)
Definition show (z : Z) : string := NilZero.string_of_int (Z.to_int z).

(** How one round of the retry loop ends: [continue] (with the value of
    [lastError]) or [return resp]. *)
Inductive LoopStep : Type :=
| Continue (lastError : option exn)
| Return (resp : Response).

(** The body of the [for] loop of [fetchWithRetry]. *)
Definition loopBody (srv : Server) (url : string) (init : RequestInit)
    (hdrs : list (string * string)) (attempt : Z) (lastError : option exn)
  : M LoopStep :=
  t <- this_field timeout ;;
  out <- fetch srv {| url := url; method := init_method init; headers := hdrs;
                      body := init_body init; signal := t |} ;;
  match out with
  | Rejected message =>
      let lastError := Some (Error_ message) in
      mr <- this_field maxRetries ;;
      if attempt <? mr then
        sleep (backoffDelay attempt) ;;; ret (Continue lastError)
      else
        mr <- this_field maxRetries ;;
        throw (LangblyError
                 (JStr ("Request failed after " ++ show (mr + 1)
                        ++ " attempts: " ++ message))
                 0 (JStr "CONNECTION_ERROR"))
  | Resolved resp =>
      if ok resp then ret (Return resp)
      else
        (if negb (retriable (status resp)) then never (throwForStatus resp)
         else ret tt) ;;;
        mr <- this_field maxRetries ;;
        if attempt <? mr then
          sleep (getRetryDelay resp attempt) ;;; ret (Continue lastError)
        else never (throwForStatus resp)
  end.

(** *** The frame of a computation

    A computation is [frame]d when it leaves the client object as it found it.
    The retry loop reads [this.maxRetries] in every round, so its termination
    rests on the frame of its body. *)
Definition frame {A} (m : M A) : Prop :=
  forall st, this (snd (m st)) = this st.

Create HintDb frame.

Lemma frame_ret {A} (a : A) : frame (ret a).
Proof. intros st. reflexivity. Qed.

Lemma frame_throw {A} (e : exn) : frame (@throw A e).
Proof. intros st. reflexivity. Qed.

Lemma frame_this_field {A} (f : Langbly -> A) : frame (this_field f).
Proof. intros st. reflexivity. Qed.

Lemma frame_emit (e : event) : frame (emit e).
Proof. intros st. reflexivity. Qed.

Lemma frame_sleep (ms : number) : frame (sleep ms).
Proof. apply frame_emit. Qed.

Lemma frame_fetch (srv : Server) (req : Request) : frame (fetch srv req).
Proof. intros st. reflexivity. Qed.

Lemma frame_bind {A B} (m : M A) (k : A -> M B) :
  frame m -> (forall a, frame (k a)) -> frame (bind m k).
Proof.
  intros Hm Hk st. unfold bind.
  specialize (Hm st). destruct (m st) as [[a | e] st1]; cbn in *.
  - rewrite Hk. exact Hm.
  - exact Hm.
Qed.

Lemma frame_if {A} (b : bool) (m1 m2 : M A) :
  frame m1 -> frame m2 -> frame (if b then m1 else m2).
Proof. destruct b; auto. Qed.

Lemma frame_throwForStatus (resp : Response) : frame (throwForStatus resp).
Proof.
  unfold throwForStatus. destruct (error_details resp) as [message code].
  repeat apply frame_if; apply frame_throw.
Qed.

Lemma frame_never {A} (m : M Empty_set) : frame m -> frame (@never A m).
Proof. intros Hm. apply frame_bind; [exact Hm | intros []]. Qed.

#[export] Hint Resolve frame_ret frame_throw frame_this_field frame_emit
  frame_sleep frame_fetch frame_if frame_throwForStatus frame_never : frame.

Ltac frame_tac :=
  repeat first
    [ progress auto with frame
    | apply frame_bind; [ | intro ]
    | apply frame_if
    | match goal with
      | |- frame (match ?x with _ => _ end) => destruct x
      end ].

Lemma frame_loopBody srv url init hdrs attempt lastError :
  frame (loopBody srv url init hdrs attempt lastError).
Proof. unfold loopBody. frame_tac. Qed.

Definition inspect {A} (a : A) : {b : A | a = b} := exist _ a eq_refl.

(** The [for] loop of [fetchWithRetry] from [attempt] on, and the [throw]
    that follows it. *)
Equations? fetchLoop (srv : Server) (url : string) (init : RequestInit)
    (hdrs : list (string * string)) (attempt : Z) (lastError : option exn)
    (st : State) : result Response * State
    by wf (Z.to_nat (maxRetries (this st) + 1 - attempt)) lt :=
  fetchLoop srv url init hdrs attempt lastError st
    with inspect (attempt <=? maxRetries (this st)) := {
    | exist _ false _ =>
        throw (or_default lastError (LangblyError_default "Request failed")) st
    | exist _ true Hle
        with inspect (loopBody srv url init hdrs attempt lastError st) := {
        | exist _ (Ok (Continue le), st') Hbody =>
            fetchLoop srv url init hdrs (attempt + 1) le st'
        | exist _ (Ok (Return resp), st') _ => (Ok resp, st')
        | exist _ (Throw e, st') _ => (Throw e, st') } }.
Proof.
  pose proof (frame_loopBody srv url0 init hdrs attempt lastError st) as Hthis.
  rewrite Hbody in Hthis. cbn in Hthis.
  rewrite Hthis. apply Z.leb_le in Hle. lia.
Qed.

(** [{...base, ...extra}] on string-keyed records: a key already present
    keeps its place and takes the new value. *)
Fixpoint set_key (k v : string) (l : list (string * string))
  : list (string * string) :=
  match l with
  | [] => [(k, v)]
  | (k', v') :: r =>
      if String.eqb k k' then (k, v) :: r else (k', v') :: set_key k v r
  end.

Definition spread (base : list (string * string))
    (extra : option (list (string * string))) : list (string * string) :=
  fold_left (fun acc kv => set_key (fst kv) (snd kv) acc)
            (or_default extra []) base.

(** [fetchWithRetry(url, init)]. *)
Definition fetchWithRetry (srv : Server) (url : string) (init : RequestInit)
  : M Response :=
  key <- this_field apiKey ;;
  let hdrs :=
    spread [("Authorization", "Bearer " ++ key);
            ("User-Agent", "langbly-js/0.1.0")]
           (init_headers init) in
  fetchLoop srv url init hdrs 0 None.

(** [postWithRetry(path, body)]. *)
Definition postWithRetry (srv : Server) (path : string) (body : jsval)
  : M jsval :=
  base <- this_field baseUrl ;;
  resp <- fetchWithRetry srv (base ++ path)
            {| init_method := "POST";
               init_headers := Some [("Content-Type", "application/json")];
               init_body := Some body |} ;;
  resp_json resp.

Fixpoint mapM {A B} (f : A -> M B) (l : list A) : M (list B) :=
  match l with
  | [] => ret []
  | x :: r => y <- f x ;; ys <- mapM f r ;; ret (y :: ys)
  end.

(** [v.map(f)]: only an array has a [map] method. *)
Definition array_map {B} (f : jsval -> M B) (v : jsval) : M (list B) :=
  match v with
  | JArr items => mapM f items
  | _ => throw TypeError
  end.

(** The first argument of [translate]: a string or an array of strings. *)
Inductive TextArg : Type :=
| Single (s : string)
| Batch (l : list string).

(** What [translate] resolves with: for an array the array of translations,
    for a string [translations[0]] ([None] is [undefined]). *)
Inductive Translated : Type :=
| One (t : option Translation)
| Many (ts : list Translation).

Definition opt_str (o : option string) : jsval :=
  match o with Some s => JStr s | None => Undefined end.

(** The request body that [translate] builds. *)
Definition translate_body (q : list string) (options : TranslateOptions.t)
  : jsval :=
  JObj ([("q", JArr (map JStr q));
         ("target", JStr (TranslateOptions.target options))]
        ++ (if truthy (TranslateOptions.source options)
            then [("source", opt_str (TranslateOptions.source options))]
            else [])
        ++ (if truthy (TranslateOptions.format options)
            then [("format", opt_str (TranslateOptions.format options))]
            else [])).

(** The callback that [translate] maps over [data.data.translations]. *)
Definition to_translation (options : TranslateOptions.t) (item : jsval)
  : M Translation :=
  translatedText <- prop "translatedText" item ;;
  detected <- prop "detectedSourceLanguage" item ;;
  m <- prop "model" item ;;
  ret {| text := translatedText;
         source := nullish_or
                     (nullish_or detected
                                 (opt_str (TranslateOptions.source options)))
                     (JStr "");
         model := m |}.

(** [translate(text, options)]. *)
Definition translate (srv : Server) (text : TextArg)
    (options : TranslateOptions.t) : M Translated :=
  let q := match text with Batch l => l | Single s => [s] end in
  let body := translate_body q options in
  data <- postWithRetry srv "/language/translate/v2" body ;;
  d <- prop "data" data ;;
  ts <- prop "translations" d ;;
  translations <- array_map (to_translation options) ts ;;
  ret (match text with
       | Batch _ => Many translations
       | Single _ => One (hd_error translations)
       end).

(** [detect(text)]. *)
Definition detect (srv : Server) (text : string) : M Detection :=
  data <- postWithRetry srv "/language/translate/v2/detect"
            (JObj [("q", JStr text)]) ;;
  d <- prop "data" data ;;
  ds <- prop "detections" d ;;
  d0 <- index0 ds ;;
  det <- index0 d0 ;;
  lang <- prop "language" det ;;
  conf <- prop "confidence" det ;;
  ret {| language := lang; confidence := nullish_or conf (JNum (num 0)) |}.

(** The application/x-www-form-urlencoded serialisation of one value, as
    [URLSearchParams.toString] writes it, over the UTF-8 bytes. *)
Module FormUrlencoded.

Definition hex_digit (n : nat) : ascii :=
  ascii_of_nat (if Nat.ltb n 10 then 48 + n else 55 + n).

Definition keep (c : ascii) : bool :=
  let n := nat_of_ascii c in
  ((Nat.leb 48 n && Nat.leb n 57) || (Nat.leb 65 n && Nat.leb n 90)
   || (Nat.leb 97 n && Nat.leb n 122)
   || Nat.eqb n 42 || Nat.eqb n 45 || Nat.eqb n 46 || Nat.eqb n 95)%bool.

Fixpoint encode (s : string) : string :=
  match s with
  | EmptyString => EmptyString
  | String c r =>
      let n := nat_of_ascii c in
      if keep c then String c (encode r)
      else if Nat.eqb n 32 then String "+" (encode r)
      else String "%" (String (hex_digit (Nat.div n 16))
                         (String (hex_digit (Nat.modulo n 16)) (encode r)))
  end.

End FormUrlencoded.

(** [languages(options)]; [target] is [options?.target]. *)
Definition languages (srv : Server) (target : option string)
  : M (list Language) :=
  let qs :=
    if truthy target
    then "target=" ++ FormUrlencoded.encode (or_default target "")
    else "" in
  let path :=
    "/language/translate/v2/languages"
    ++ (if negb (String.eqb qs "") then "?" ++ qs else "") in
  base <- this_field baseUrl ;;
  resp <- fetchWithRetry srv (base ++ path)
            {| init_method := "GET"; init_headers := None;
               init_body := None |} ;;
  data <- resp_json resp ;;
  d <- prop "data" data ;;
  ls <- prop "languages" d ;;
  array_map (fun lang =>
               c <- prop "language" lang ;;
               n <- prop "name" lang ;;
               ret {| code := c; name := n |}) ls.

(* ===================================================================== *)
(** ** The retry loop, round by round *)
(* ===================================================================== *)

(** One round of the loop, as an equation. *)
Lemma fetchLoop_round srv url init hdrs attempt lastError st :
  fetchLoop srv url init hdrs attempt lastError st =
  if attempt <=? maxRetries (this st) then
    match loopBody srv url init hdrs attempt lastError st with
    | (Ok (Continue le), st') =>
        fetchLoop srv url init hdrs (attempt + 1) le st'
    | (Ok (Return resp), st') => (Ok resp, st')
    | (Throw e, st') => (Throw e, st')
    end
  else throw (or_default lastError (LangblyError_default "Request failed")) st.
Proof.
  simp fetchLoop.
  match goal with |- _ = ?rhs => remember rhs as R eqn:HR end.
  destruct (inspect (attempt <=? maxRetries (this st))) as [b Hb].
  rewrite Hb in HR. destruct b; simp fetchLoop; [ | now subst R].
  destruct (inspect (loopBody srv url init hdrs attempt lastError st))
    as [[r st'] Hr].
  rewrite Hr in HR. subst R.
  destruct r as [[le | resp] | e]; simp fetchLoop; reflexivity.
Qed.

Local Open Scope list_scope.

(** The state after more effects. *)
Definition after (st : State) (evs : list event) : State :=
  {| this := this st; trace := trace st ++ evs |}.

(** The request that every round of [fetchWithRetry] sends. *)
Definition request_of (c : Langbly) (url : string) (init : RequestInit)
    (hdrs : list (string * string)) : Request :=
  {| url := url; method := init_method init; headers := hdrs;
     body := init_body init; signal := timeout c |}.

(** The exception that [throwForStatus] raises. *)
Definition statusError (resp : Response) : exn :=
  let '(message, code) := error_details resp in
  if status resp =? 401 then AuthenticationError message
  else if status resp =? 429 then RateLimitError message (parseRetryAfter resp)
  else LangblyError message (status resp) code.

Lemma throwForStatus_throws resp st :
  throwForStatus resp st = (Throw (statusError resp), st).
Proof.
  unfold throwForStatus, statusError.
  destruct (error_details resp) as [message code].
  destruct (status resp =? 401); [reflexivity | ].
  destruct (status resp =? 429); reflexivity.
Qed.

Lemma never_throwForStatus {A} resp st :
  @never A (throwForStatus resp) st = (Throw (statusError resp), st).
Proof. unfold never, bind. rewrite throwForStatus_throws. reflexivity. Qed.

(** The message of the connection error. *)
Definition connection_message (c : Langbly) (message : string) : string :=
  ("Request failed after " ++ show (maxRetries c + 1)
   ++ " attempts: " ++ message)%string.

(** Every way one round can go, by the outcome of its fetch. *)
Lemma loopBody_cases srv url init hdrs attempt lastError st :
  let req := request_of (this st) url init hdrs in
  loopBody srv url init hdrs attempt lastError st =
  match srv (fetch_count (trace st)) req with
  | Rejected message =>
      if attempt <? maxRetries (this st) then
        (Ok (Continue (Some (Error_ message))),
         after st [EvFetch req; EvSleep (backoffDelay attempt)])
      else
        (Throw (LangblyError (JStr (connection_message (this st) message))
                             0 (JStr "CONNECTION_ERROR")),
         after st [EvFetch req])
  | Resolved resp =>
      if ok resp then (Ok (Return resp), after st [EvFetch req])
      else if negb (retriable (status resp)) then
        (Throw (statusError resp), after st [EvFetch req])
      else if attempt <? maxRetries (this st) then
        (Ok (Continue lastError),
         after st [EvFetch req; EvSleep (getRetryDelay resp attempt)])
      else (Throw (statusError resp), after st [EvFetch req])
  end.
Proof.
  intros req. subst req. unfold request_of, after.
  unfold loopBody, bind, this_field, fetch, sleep, emit, ret, throw.
  cbv beta iota. cbn [this trace fst snd].
  destruct (srv _ _) as [resp | message]; cbv beta iota; cbn [this trace].
  - destruct (ok resp); [reflexivity | ].
    destruct (retriable (status resp)); cbv beta iota; cbn [negb this trace].
    + destruct (attempt <? maxRetries (this st)).
      * cbn [this trace]. rewrite <- app_assoc. reflexivity.
      * rewrite never_throwForStatus. reflexivity.
    + rewrite never_throwForStatus. reflexivity.
  - destruct (attempt <? maxRetries (this st)).
    + cbn [this trace]. rewrite <- app_assoc. reflexivity.
    + reflexivity.
Qed.

Lemma fetch_count_app tr1 tr2 :
  fetch_count (tr1 ++ tr2) = (fetch_count tr1 + fetch_count tr2)%nat.
Proof. unfold fetch_count. rewrite filter_app, length_app. reflexivity. Qed.

Lemma after_after st evs1 evs2 :
  after (after st evs1) evs2 = after st (evs1 ++ evs2).
Proof. unfold after. cbn. rewrite app_assoc. reflexivity. Qed.

Lemma after_nil st : after st [] = st.
Proof. destruct st. unfold after. cbn. rewrite app_nil_r. reflexivity. Qed.

(** A round of the loop while attempts are left to make. *)
Lemma fetchLoop_step srv url init hdrs attempt lastError st :
  attempt <= maxRetries (this st) ->
  let req := request_of (this st) url init hdrs in
  fetchLoop srv url init hdrs attempt lastError st =
  match srv (fetch_count (trace st)) req with
  | Rejected message =>
      if attempt <? maxRetries (this st) then
        fetchLoop srv url init hdrs (attempt + 1) (Some (Error_ message))
                  (after st [EvFetch req; EvSleep (backoffDelay attempt)])
      else
        (Throw (LangblyError (JStr (connection_message (this st) message))
                             0 (JStr "CONNECTION_ERROR")),
         after st [EvFetch req])
  | Resolved resp =>
      if ok resp then (Ok resp, after st [EvFetch req])
      else if negb (retriable (status resp)) then
        (Throw (statusError resp), after st [EvFetch req])
      else if attempt <? maxRetries (this st) then
        fetchLoop srv url init hdrs (attempt + 1) lastError
                  (after st [EvFetch req; EvSleep (getRetryDelay resp attempt)])
      else (Throw (statusError resp), after st [EvFetch req])
  end.
Proof.
  intros Hle req. rewrite fetchLoop_round.
  apply Z.leb_le in Hle. rewrite Hle.
  rewrite loopBody_cases. fold req.
  destruct (srv (fetch_count (trace st)) req) as [resp | message].
  - destruct (ok resp); [reflexivity | ].
    destruct (negb (retriable (status resp))); [reflexivity | ].
    destruct (attempt <? maxRetries (this st)); reflexivity.
  - destruct (attempt <? maxRetries (this st)); reflexivity.
Qed.

(** Past the last attempt the loop is left and the final [throw] runs. *)
Lemma fetchLoop_exit srv url init hdrs attempt lastError st :
  maxRetries (this st) < attempt ->
  fetchLoop srv url init hdrs attempt lastError st =
  (Throw (or_default lastError (LangblyError_default "Request failed")), st).
Proof.
  intros Hlt. rewrite fetchLoop_round.
  apply Z.leb_gt in Hlt. rewrite Hlt. reflexivity.
Qed.

(** The headers that [fetchWithRetry] sends. *)
Definition headers_of (c : Langbly) (init : RequestInit)
  : list (string * string) :=
  spread [("Authorization", ("Bearer " ++ apiKey c)%string);
          ("User-Agent", "langbly-js/0.1.0")]
         (init_headers init).

Lemma fetchWithRetry_loop srv url init st :
  fetchWithRetry srv url init st =
  fetchLoop srv url init (headers_of (this st) init) 0 None st.
Proof. reflexivity. Qed.

Definition sleep_count (tr : list event) : nat :=
  List.length (filter (fun e => negb (is_fetch e)) tr).

Lemma sleep_count_app tr1 tr2 :
  sleep_count (tr1 ++ tr2) = (sleep_count tr1 + sleep_count tr2)%nat.
Proof. unfold sleep_count. rewrite filter_app, length_app. reflexivity. Qed.

(** What a run of the loop leaves behind: its own events [tr], whose fetches
    all send the same request, at most one per attempt left; at least one
    when an attempt is left; one sleep between two fetches; and a returned response is an [ok] answer of
    the server to the last of them. *)
Record loop_run (srv : Server) (req : Request) (left : nat) (entered : bool)
    (st : State) (out : result Response * State) (tr : list event) : Prop := {
  run_state : snd out = after st tr;
  run_requests : forall r, In (EvFetch r) tr -> r = req;
  run_bound : (fetch_count tr <= left)%nat;
  run_entered : entered = true -> (1 <= fetch_count tr)%nat;
  run_sleeps : (sleep_count tr = fetch_count tr - 1)%nat;
  run_result :
    match fst out with
    | Ok resp =>
        ok resp = true /\
        exists tr', tr = tr' ++ [EvFetch req] /\
          srv (fetch_count (trace st ++ tr')) req = Resolved resp
    | Throw _ => True
    end
}.

Lemma loop_run_here srv req left st r :
  match r with
  | Ok resp => ok resp = true /\
               srv (fetch_count (trace st)) req = Resolved resp
  | Throw _ => True
  end ->
  loop_run srv req (S left) true st (r, after st [EvFetch req]) [EvFetch req].
Proof.
  intros Hr. split; cbn.
  - reflexivity.
  - intros r' [H | []]. now inversion H.
  - lia.
  - lia.
  - reflexivity.
  - destruct r as [resp | e]; [ | exact I].
    destruct Hr as [Hok Hsrv]. split; [exact Hok | ].
    exists []. rewrite app_nil_r. split; [reflexivity | exact Hsrv].
Qed.

Lemma loop_run_next srv req left st out tr delay :
  loop_run srv req left true (after st [EvFetch req; EvSleep delay]) out tr ->
  loop_run srv req (S left) true st out ([EvFetch req; EvSleep delay] ++ tr).
Proof.
  intros [Hst Hreq Hb He Hsl Hres]. split.
  - rewrite Hst, after_after. reflexivity.
  - intros r [H | [H | H]]; [now inversion H | discriminate H | auto].
  - rewrite fetch_count_app. cbn. lia.
  - intros _. rewrite fetch_count_app. cbn. lia.
  - rewrite sleep_count_app, fetch_count_app, Hsl.
    specialize (He eq_refl). cbn. lia.
  - destruct (fst out) as [resp | e]; [ | exact I].
    destruct Hres as [Hok [tr' [Htr Hsrv]]]. split; [exact Hok | ].
    exists ([EvFetch req; EvSleep delay] ++ tr'). split.
    + rewrite Htr. rewrite app_assoc. reflexivity.
    + cbn [after trace] in Hsrv. rewrite <- app_assoc in Hsrv. exact Hsrv.
Qed.

Lemma fetchLoop_run srv url init hdrs :
  forall (left : nat) attempt lastError st,
    Z.to_nat (maxRetries (this st) + 1 - attempt) = left ->
    exists tr,
      loop_run srv (request_of (this st) url init hdrs) left
               (attempt <=? maxRetries (this st)) st
               (fetchLoop srv url init hdrs attempt lastError st) tr.
Proof.
  induction left as [ | left IH]; intros attempt lastError st Hleft.
  - assert (Hlt : maxRetries (this st) < attempt) by lia.
    rewrite fetchLoop_exit by exact Hlt.
    apply Z.leb_gt in Hlt. rewrite Hlt.
    exists []. split; cbn.
    + now rewrite after_nil.
    + intros r [].
    + lia.
    + discriminate.
    + reflexivity.
    + exact I.
  - assert (Hle : attempt <= maxRetries (this st)) by lia.
    rewrite fetchLoop_step by exact Hle.
    apply Z.leb_le in Hle. rewrite Hle. apply Z.leb_le in Hle.
    set (req := request_of (this st) url init hdrs).
    assert (Hnext : forall le delay,
               (attempt <? maxRetries (this st)) = true ->
               exists tr,
                 loop_run srv req (S left) true st
                   (fetchLoop srv url init hdrs (attempt + 1) le
                      (after st [EvFetch req; EvSleep delay])) tr).
    { intros le delay Hlt. apply Z.ltb_lt in Hlt.
      destruct (IH (attempt + 1) le (after st [EvFetch req; EvSleep delay]))
        as [tr Hrun].
      { cbn [after this]. lia. }
      cbn [after this] in Hrun. fold req in Hrun.
      replace (attempt + 1 <=? maxRetries (this st)) with true in Hrun
        by (symmetry; apply Z.leb_le; lia).
      eexists. apply loop_run_next. exact Hrun. }
    destruct (srv (fetch_count (trace st)) req) as [resp | message] eqn:Hsrv.
    + destruct (ok resp) eqn:Hok.
      { exists [EvFetch req]. apply loop_run_here. now split. }
      destruct (negb (retriable (status resp))).
      { exists [EvFetch req]. now apply loop_run_here. }
      destruct (attempt <? maxRetries (this st)) eqn:Hlt.
      * now apply Hnext.
      * exists [EvFetch req]. now apply loop_run_here.
    + destruct (attempt <? maxRetries (this st)) eqn:Hlt.
      * now apply Hnext.
      * exists [EvFetch req]. now apply loop_run_here.
Qed.

(* ===================================================================== *)
(** ** The retry bound *)
(* ===================================================================== *)

(** Without a [maxRetries] option the client retries twice. *)
Lemma constructor_maxRetries options c :
  constructor options = Ok c ->
  maxRetries c = or_default (LangblyOptions.maxRetries options) 2.
Proof.
  unfold constructor.
  destruct (negb (truthy (LangblyOptions.apiKey options))); [discriminate | ].
  intros H. inversion H. reflexivity.
Qed.

(** C1.  A call of [fetchWithRetry] on a client with [maxRetries = n], for a
    count [n >= 0], always ends, with a response whose [ok] is true or with
    an exception; it makes at most [n + 1] fetches, each but the last
    followed by one sleep, so at most [n] retries. *)
Theorem fetchWithRetry_bounded srv url init st :
  0 <= maxRetries (this st) ->
  exists tr,
    snd (fetchWithRetry srv url init st) = after st tr /\
    1 <= Z.of_nat (fetch_count tr) <= maxRetries (this st) + 1 /\
    Z.of_nat (sleep_count tr) = Z.of_nat (fetch_count tr) - 1 /\
    ((exists resp,
         fst (fetchWithRetry srv url init st) = Ok resp /\ ok resp = true)
     \/ (exists e, fst (fetchWithRetry srv url init st) = Throw e)).
Proof.
  intros Hn. rewrite fetchWithRetry_loop.
  destruct (fetchLoop_run srv url init (headers_of (this st) init)
              (Z.to_nat (maxRetries (this st) + 1)) 0 None st)
    as [tr [Hst Hreq Hb He Hsl Hres]].
  { f_equal. lia. }
  exists tr. split; [exact Hst | ].
  assert (H1 : (1 <= fetch_count tr)%nat).
  { apply He. apply Z.leb_le. exact Hn. }
  split; [lia | ]. split; [lia | ].
  destruct (fst (fetchLoop srv url init (headers_of (this st) init) 0 None st))
    as [resp | e].
  - left. exists resp. split; [reflexivity | apply Hres].
  - right. exists e. reflexivity.
Qed.

Definition demo_client : Langbly :=
  {| apiKey := "key"; baseUrl := "https://api.langbly.com";
     timeout := 30000; maxRetries := 2 |}.

Definition demo_state : State := {| this := demo_client; trace := [] |}.

Definition get_init : RequestInit :=
  {| init_method := "GET"; init_headers := None; init_body := None |}.

Definition unavailable : Response :=
  {| ok := false; status := 503; statusText := "Service Unavailable";
     retry_after := None; json := None |}.

Definition always_unavailable : Server := fun _ _ => Resolved unavailable.

Lemma fetchWithRetry_bounded_witness :
  0 <= maxRetries (this demo_state) /\
  exists tr,
    snd (fetchWithRetry always_unavailable "https://api.langbly.com/x"
           get_init demo_state) = after demo_state tr /\
    1 <= Z.of_nat (fetch_count tr) <= maxRetries (this demo_state) + 1 /\
    Z.of_nat (sleep_count tr) = Z.of_nat (fetch_count tr) - 1 /\
    ((exists resp,
         fst (fetchWithRetry always_unavailable "https://api.langbly.com/x"
                get_init demo_state) = Ok resp /\ ok resp = true)
     \/ (exists e,
            fst (fetchWithRetry always_unavailable "https://api.langbly.com/x"
                   get_init demo_state) = Throw e)).
Proof.
  split; [cbn; lia | ].
  apply (fetchWithRetry_bounded always_unavailable "https://api.langbly.com/x"
           get_init demo_state).
  cbn. lia.
Defined.

(** The default client really makes three attempts against a server that is
    never available. *)
Example three_attempts :
  fetch_count (trace (snd (fetchWithRetry always_unavailable
                             "https://api.langbly.com/x" get_init demo_state)))
  = 3%nat.
Proof. vm_compute. reflexivity. Qed.

(* ===================================================================== *)
(** ** Retriable and terminal status codes *)
(* ===================================================================== *)

Lemma retriable_spec s :
  retriable s = true <-> In s [429; 500; 502; 503; 504].
Proof.
  unfold retriable, RETRIABLE_STATUS_CODES. rewrite existsb_exists. split.
  - intros [x [Hin Heq]]. apply Z.eqb_eq in Heq. now subst x.
  - intros Hin. exists s. split; [exact Hin | apply Z.eqb_refl].
Qed.

(** A round that is entered starts with a fetch. *)
Lemma fetchLoop_fetches_first srv url init hdrs attempt lastError st :
  attempt <= maxRetries (this st) ->
  exists tr,
    snd (fetchLoop srv url init hdrs attempt lastError st) =
    after st (EvFetch (request_of (this st) url init hdrs) :: tr).
Proof.
  intros Hle. rewrite fetchLoop_step by exact Hle.
  set (req := request_of (this st) url init hdrs).
  assert (Hnext : forall le delay,
             exists tr,
               snd (fetchLoop srv url init hdrs (attempt + 1) le
                      (after st [EvFetch req; EvSleep delay])) =
               after st (EvFetch req :: tr)).
  { intros le delay.
    destruct (fetchLoop_run srv url init hdrs _ (attempt + 1) le
                (after st [EvFetch req; EvSleep delay]) eq_refl)
      as [tr [Hst _ _ _ _ _]].
    exists (EvSleep delay :: tr). rewrite Hst, after_after. reflexivity. }
  destruct (srv (fetch_count (trace st)) req) as [resp | message].
  - destruct (ok resp); [now exists [] | ].
    destruct (negb (retriable (status resp))); [now exists [] | ].
    destruct (attempt <? maxRetries (this st)); [apply Hnext | now exists []].
  - destruct (attempt <? maxRetries (this st)); [apply Hnext | now exists []].
Qed.

(** C2.  In a round whose fetch resolves with a response that is not [ok]:
    a status outside 429, 500, 502, 503, 504 is thrown at once, this fetch
    being the last event; a status inside the set is retried while attempts
    are left (a sleep, then the next round, which fetches again), and is
    thrown on the last attempt. *)
Theorem fetchLoop_status_codes srv url init hdrs attempt lastError st resp :
  attempt <= maxRetries (this st) ->
  srv (fetch_count (trace st)) (request_of (this st) url init hdrs)
    = Resolved resp ->
  ok resp = false ->
  let req := request_of (this st) url init hdrs in
  let run := fetchLoop srv url init hdrs attempt lastError st in
  (retriable (status resp) = true <->
   In (status resp) [429; 500; 502; 503; 504]) /\
  (retriable (status resp) = false ->
   run = (Throw (statusError resp), after st [EvFetch req])) /\
  (retriable (status resp) = true -> attempt < maxRetries (this st) ->
   run = fetchLoop srv url init hdrs (attempt + 1) lastError
           (after st [EvFetch req; EvSleep (getRetryDelay resp attempt)]) /\
   exists tr,
     snd run =
     after st ([EvFetch req; EvSleep (getRetryDelay resp attempt);
                EvFetch req] ++ tr)) /\
  (retriable (status resp) = true -> attempt = maxRetries (this st) ->
   run = (Throw (statusError resp), after st [EvFetch req])).
Proof.
  intros Hle Hsrv Hok req run.
  assert (Hrun : run =
    if negb (retriable (status resp)) then
      (Throw (statusError resp), after st [EvFetch req])
    else if attempt <? maxRetries (this st) then
      fetchLoop srv url init hdrs (attempt + 1) lastError
        (after st [EvFetch req; EvSleep (getRetryDelay resp attempt)])
    else (Throw (statusError resp), after st [EvFetch req])).
  { unfold run. rewrite fetchLoop_step by exact Hle.
    fold req. unfold req at 1. rewrite Hsrv, Hok. reflexivity. }
  split; [apply retriable_spec | ].
  split; [ | split].
  - intros Hterm. rewrite Hrun, Hterm. reflexivity.
  - intros Hretry Hlt. rewrite Hrun, Hretry. cbn [negb].
    replace (attempt <? maxRetries (this st)) with true
      by (symmetry; apply Z.ltb_lt; exact Hlt).
    split; [reflexivity | ].
    destruct (fetchLoop_fetches_first srv url init hdrs (attempt + 1) lastError
                (after st [EvFetch req; EvSleep (getRetryDelay resp attempt)]))
      as [tr Htr].
    { cbn [after this]. lia. }
    exists tr. rewrite Htr, after_after. reflexivity.
  - intros Hretry Hlast. rewrite Hrun, Hretry. cbn [negb].
    replace (attempt <? maxRetries (this st)) with false
      by (symmetry; apply Z.ltb_ge; lia).
    reflexivity.
Qed.

Lemma fetchLoop_status_codes_witness :
  0 <= maxRetries (this demo_state) /\
  always_unavailable (fetch_count (trace demo_state))
    (request_of (this demo_state) "https://api.langbly.com/x" get_init [])
  = Resolved unavailable /\
  ok unavailable = false /\
  fetchLoop always_unavailable "https://api.langbly.com/x" get_init [] 0 None
    demo_state =
  fetchLoop always_unavailable "https://api.langbly.com/x" get_init [] 1 None
    (after demo_state
       [EvFetch (request_of (this demo_state) "https://api.langbly.com/x"
                   get_init []);
        EvSleep (getRetryDelay unavailable 0)]).
Proof.
  assert (H0 : 0 <= maxRetries (this demo_state)) by (cbn; lia).
  split; [exact H0 | ]. split; [reflexivity | ]. split; [reflexivity | ].
  destruct (fetchLoop_status_codes always_unavailable
              "https://api.langbly.com/x" get_init [] 0 None demo_state
              unavailable H0 eq_refl eq_refl)
    as [_ [_ [Hretry _]]].
  apply Hretry; [reflexivity | cbn; lia].
Defined.

(* ===================================================================== *)
(** ** Delays *)
(* ===================================================================== *)

Lemma Qred_inject_Z z : Qred (inject_Z z) = inject_Z z.
Proof. apply Qcanon.Qred_identity. cbn. apply Z.gcd_1_r. Qed.

(** *** Values that binary64 holds exactly *)

Lemma round_div_exact m d : 0 < d -> Binary64.round_div (m * d) d = m.
Proof.
  intros Hd. unfold Binary64.round_div.
  rewrite Z.mod_mul, Z.div_mul by lia.
  change (2 * 0) with 0. destruct (0 ?= d) eqn:Hc; [ | reflexivity | ].
  - apply Z.compare_eq in Hc. lia.
  - apply Z.compare_gt_iff in Hc. lia.
Qed.

(** An integer with a significand below [2 ^ 53], scaled by a power of two,
    is a binary64 value as long as it is below [2 ^ 1024]. *)
Lemma round_scaled q z k :
  (q == inject_Z (z * 2 ^ k))%Q ->
  0 <= k -> 0 < Z.abs z < 2 ^ 53 ->
  Binary64.round q =
  if Z.abs z * 2 ^ k <? 2 ^ 1024 then num (z * 2 ^ k) else Infinity (z <? 0).
Proof.
  intros Hq Hk Hz. unfold Binary64.round.
  rewrite (Qred_complete _ _ Hq), Qred_inject_Z.
  cbn [Qnum Qden inject_Z].
  assert (Hp : 0 < 2 ^ k) by (apply Z.pow_pos_nonneg; lia).
  set (a := Z.abs z * 2 ^ k).
  assert (Ha : Z.abs (z * 2 ^ k) = a).
  { unfold a. rewrite Z.abs_mul, (Z.abs_eq (2 ^ k)) by lia. reflexivity. }
  assert (Ha0 : 0 < a) by (unfold a; nia).
  assert (Hn0 : z * 2 ^ k <> 0) by nia.
  replace (z * 2 ^ k =? 0) with false by (symmetry; now apply Z.eqb_neq).
  rewrite Ha.
  assert (Hsign : (z * 2 ^ k <? 0) = (z <? 0)).
  { destruct (Z.ltb_spec z 0), (Z.ltb_spec (z * 2 ^ k) 0); try reflexivity; nia. }
  rewrite Hsign.
  assert (Hl : Z.log2 a = k + Z.log2 (Z.abs z)).
  { unfold a. apply Z.log2_mul_pow2; lia. }
  assert (Hlz : 0 <= Z.log2 (Z.abs z) < 53).
  { split; [apply Z.log2_nonneg | ]. apply Z.log2_lt_pow2; lia. }
  assert (Hplace : Binary64.last_place a 1 = Z.log2 a - 52).
  { unfold Binary64.last_place. change (Z.log2 1) with 0. rewrite Z.sub_0_r.
    unfold Binary64.below_pow2.
    replace (0 <=? Z.log2 a) with true by (symmetry; apply Z.leb_le; lia).
    replace (a <? 1 * 2 ^ Z.log2 a) with false.
    - lia.
    - symmetry. apply Z.ltb_ge. rewrite Z.mul_1_l.
      apply Z.log2_spec. exact Ha0. }
  set (e := Z.log2 a - 52) in *.
  assert (Hsig : Binary64.significand a 1 =
                 if 0 <=? e then a / 2 ^ e else a * 2 ^ (- e)).
  { unfold Binary64.significand. rewrite Hplace.
    destruct (Z.leb_spec 0 e) as [He | He].
    - assert (Hdiv : a = (Z.abs z * 2 ^ (k - e)) * 2 ^ e).
      { unfold a. rewrite <- Z.mul_assoc, <- Z.pow_add_r by lia.
        f_equal. f_equal. lia. }
      rewrite Z.mul_1_l. rewrite Hdiv at 1.
      rewrite round_div_exact by (apply Z.pow_pos_nonneg; lia).
      rewrite Hdiv at 1. rewrite Z.div_mul; [reflexivity | ].
      apply Z.pow_nonzero; lia.
    - rewrite <- (Z.mul_1_r (a * 2 ^ (- e))) at 1.
      apply round_div_exact. lia. }
  rewrite Hplace, Hsig.
  destruct (Z.leb_spec 0 e) as [He | He].
  - assert (Hdiv : a = (a / 2 ^ e) * 2 ^ e).
    { assert (Hd : a = (Z.abs z * 2 ^ (k - e)) * 2 ^ e).
      { unfold a. rewrite <- Z.mul_assoc, <- Z.pow_add_r by lia.
        f_equal. f_equal. lia. }
      rewrite Hd at 2. rewrite Z.div_mul; [exact Hd | ].
      apply Z.pow_nonzero; lia. }
    assert (He0 : 0 < 2 ^ e) by (apply Z.pow_pos_nonneg; lia).
    assert (Hm : a / 2 ^ e <> 0) by nia.
    replace (a / 2 ^ e =? 0) with false by (symmetry; now apply Z.eqb_neq).
    rewrite <- Hdiv. cbn [andb].
    destruct (Z.leb_spec (2 ^ 1024) a) as [Hover | Hfit].
    + replace (a <? 2 ^ 1024) with false by (symmetry; apply Z.ltb_ge; lia).
      reflexivity.
    + replace (a <? 2 ^ 1024) with true by (symmetry; apply Z.ltb_lt; lia).
      unfold num. f_equal.
      rewrite <- (Qred_inject_Z (z * 2 ^ k)). apply Qred_complete.
      rewrite <- (Zpower_Qpower 2 e He), <- inject_Z_mult.
      rewrite <- Z.mul_assoc, <- Hdiv, <- Ha.
      rewrite Z.mul_comm, Z.abs_sgn. reflexivity.
  - cbn [andb].
    assert (He0 : 0 < 2 ^ (- e)) by (apply Z.pow_pos_nonneg; lia).
    assert (Hm : a * 2 ^ (- e) <> 0) by nia.
    replace (a * 2 ^ (- e) =? 0) with false
      by (symmetry; now apply Z.eqb_neq).
    assert (Hsmall : a < 2 ^ 52).
    { apply Z.log2_lt_pow2; [exact Ha0 | ]. unfold e in He. lia. }
    replace (a <? 2 ^ 1024) with true.
    2:{ symmetry. apply Z.ltb_lt.
        apply Z.lt_trans with (2 ^ 52); [exact Hsmall | ].
        apply Z.pow_lt_mono_r; lia. }
    unfold num. f_equal.
    rewrite <- (Qred_inject_Z (z * 2 ^ k)). apply Qred_complete.
    replace e with (- (- e)) at 2 by lia.
    rewrite Qpower_opp, <- (Zpower_Qpower 2 (- e)) by lia.
    rewrite Z.mul_assoc, inject_Z_mult.
    rewrite <- Qmult_assoc, Qmult_inv_r, Qmult_1_r.
    + rewrite <- Ha, Z.mul_comm, Z.abs_sgn. reflexivity.
    + intros H. apply (Qeq_bool_neq (inject_Z (2 ^ (- e))) 0); [ | exact H].
      unfold Qeq_bool. cbn. apply Z.eqb_neq. lia.
Qed.

Lemma round_int z :
  Z.abs z < 2 ^ 53 -> Binary64.round (inject_Z z) = num z.
Proof.
  intros Hz. destruct (Z.eq_dec z 0) as [-> | Hne]; [reflexivity | ].
  rewrite (round_scaled (inject_Z z) z 0).
  - change (2 ^ 0) with 1. rewrite !Z.mul_1_r.
    replace (Z.abs z <? 2 ^ 1024) with true; [reflexivity | ].
    symmetry. apply Z.ltb_lt.
    apply Z.lt_trans with (2 ^ 53); [exact Hz | ].
    apply Z.pow_lt_mono_r; lia.
  - change (2 ^ 0) with 1. now rewrite Z.mul_1_r.
  - lia.
  - lia.
Qed.

Lemma pow2_nonneg a :
  0 <= a ->
  pow2 a = if 2 ^ a <? 2 ^ 1024 then num (2 ^ a) else Infinity false.
Proof.
  intros Ha. unfold pow2.
  rewrite (round_scaled (Qpower 2 a) 1 a).
  - rewrite !Z.mul_1_l. reflexivity.
  - rewrite Z.mul_1_l. symmetry. apply (Zpower_Qpower 2 a Ha).
  - exact Ha.
  - cbn. lia.
Qed.

(** A product of integers that fits in 53 bits is exact. *)
Lemma num_mul_num x y :
  0 < y -> Z.abs (x * y) < 2 ^ 53 ->
  num_mul (num x) (num y) = num (x * y).
Proof.
  intros Hy Hxy. unfold num_mul, num.
  unfold Qis_zero. cbn [Qnum inject_Z].
  destruct (Z.eqb_spec x 0) as [-> | Hx].
  - cbn [orb sign_bit]. unfold Qsign_neg. cbn [Qnum inject_Z].
    replace (y <? 0) with false by (symmetry; apply Z.ltb_ge; lia).
    reflexivity.
  - replace (y =? 0) with false by (symmetry; apply Z.eqb_neq; lia).
    cbn [orb]. rewrite <- inject_Z_mult. now apply round_int.
Qed.

Lemma Qmin_inject_Z x y : Qmin (inject_Z x) (inject_Z y) = inject_Z (Z.min x y).
Proof.
  unfold Qmin, GenericMinMax.gmin, Qcompare, Z.min. cbn.
  rewrite !Z.mul_1_r. destruct (x ?= y); reflexivity.
Qed.

Lemma Math_min_num x y : Math_min (num x) (num y) = num (Z.min x y).
Proof. unfold Math_min, num. f_equal. apply Qmin_inject_Z. Qed.

Lemma backoffDelay_nonneg a :
  0 <= a -> backoffDelay a = num (Z.min (500 * 2 ^ a) 10000).
Proof.
  intros Ha. unfold backoffDelay. rewrite (pow2_nonneg a Ha).
  assert (Hp : 0 < 2 ^ a) by (apply Z.pow_pos_nonneg; lia).
  assert (Hbig : 10000 < 2 ^ 1024) by (apply Z.ltb_lt; vm_compute; reflexivity).
  destruct (Z.ltb_spec (2 ^ a) (2 ^ 1024)) as [Hfit | Hover].
  - assert (Hmul : num_mul (num 500) (num (2 ^ a)) =
                   if 500 * 2 ^ a <? 2 ^ 1024 then num (500 * 2 ^ a)
                   else Infinity false).
    { unfold num_mul, num, Qis_zero. cbn [Qnum inject_Z].
      change (500 =? 0) with false.
      replace (2 ^ a =? 0) with false by (symmetry; apply Z.eqb_neq; lia).
      cbn [orb]. rewrite <- inject_Z_mult.
      apply (round_scaled _ 500 a); [reflexivity | exact Ha | ].
      split; [reflexivity | apply Z.ltb_lt; vm_compute; reflexivity]. }
    rewrite Hmul.
    destruct (Z.ltb_spec (500 * 2 ^ a) (2 ^ 1024)) as [Hfit' | Hover'].
    + apply Math_min_num.
    + cbn [Math_min num]. unfold num. do 2 f_equal.
      symmetry. apply Z.min_r.
      apply Z.le_trans with (2 ^ 1024); [apply Z.lt_le_incl; exact Hbig | ].
      exact Hover'.
  - change (num_mul (num 500) (Infinity false)) with (Infinity false).
    cbn [Math_min num]. unfold num. do 2 f_equal.
    symmetry. apply Z.min_r.
    apply Z.le_trans with (2 ^ 1024); [apply Z.lt_le_incl; exact Hbig | ].
    apply Z.le_trans with (2 ^ a); [exact Hover | ].
    rewrite <- (Z.mul_1_l (2 ^ a)) at 1.
    apply Z.mul_le_mono_nonneg_r; [apply Z.lt_le_incl; exact Hp | ].
    discriminate.
Qed.

(** Without a usable header the retry delay is the backoff delay. *)
Lemma getRetryDelay_fallback resp attempt :
  truthy (retry_after resp) = false \/
  Number_isFinite (Number (or_default (retry_after resp) "")) = false ->
  getRetryDelay resp attempt = backoffDelay attempt.
Proof.
  unfold getRetryDelay, backoffDelay. intros [H | H].
  - rewrite H. reflexivity.
  - rewrite H. destruct (truthy (retry_after resp)); reflexivity.
Qed.

(** C3.  For an attempt number [a >= 0] the backoff delay is
    [min(500 * 2^a, 10000)] milliseconds, in [backoffDelay] (used after a
    rejected fetch) and in [getRetryDelay] when the response has no
    Retry-After header: 500, 1000, 2000, 4000, 8000, then 10000 for good;
    it doubles from one attempt to the next while below the cap. *)
Theorem backoff_doubles_to_cap a :
  0 <= a ->
  backoffDelay a = num (Z.min (500 * 2 ^ a) 10000) /\
  (forall resp, retry_after resp = None ->
                getRetryDelay resp a = num (Z.min (500 * 2 ^ a) 10000)) /\
  (a < 4 -> backoffDelay (a + 1) = num_mul (num 2) (backoffDelay a)) /\
  (5 <= a -> backoffDelay a = num 10000) /\
  map backoffDelay [0; 1; 2; 3; 4; 5; 6] =
  map num [500; 1000; 2000; 4000; 8000; 10000; 10000].
Proof.
  intros Ha. split; [now apply backoffDelay_nonneg | ].
  split; [ | split; [ | split]].
  - intros resp Hnone. rewrite getRetryDelay_fallback.
    + now apply backoffDelay_nonneg.
    + left. rewrite Hnone. reflexivity.
  - intros Hlt. rewrite !backoffDelay_nonneg by lia.
    assert (H : 2 ^ a <= 2 ^ 3) by (apply Z.pow_le_mono_r; lia).
    change (2 ^ 3) with 8 in H.
    assert (H0 : 0 < 2 ^ a) by (apply Z.pow_pos_nonneg; lia).
    rewrite num_mul_num.
    + f_equal. rewrite Z.pow_add_r by lia. change (2 ^ 1) with 2. lia.
    + lia.
    + change (2 ^ 53) with 9007199254740992. lia.
  - intros Hge. rewrite backoffDelay_nonneg by lia. f_equal.
    assert (H : 2 ^ 5 <= 2 ^ a) by (apply Z.pow_le_mono_r; lia).
    change (2 ^ 5) with 32 in H. lia.
  - reflexivity.
Qed.

Lemma backoff_doubles_to_cap_witness :
  0 <= 3 /\ backoffDelay 3 = num (Z.min (500 * 2 ^ 3) 10000).
Proof.
  split; [lia | ]. apply (backoff_doubles_to_cap 3). lia.
Defined.

(* ===================================================================== *)
(** ** The Retry-After header *)
(* ===================================================================== *)

Lemma truthy_Some h : truthy (Some h) = negb (String.eqb h "").
Proof. reflexivity. Qed.

Lemma truthy_nonempty h : h <> "" -> truthy (Some h) = true.
Proof.
  intros Hne. rewrite truthy_Some.
  destruct (String.eqb_spec h ""); [contradiction | reflexivity].
Qed.

(** A retriable answer with attempts left: sleep for [getRetryDelay], then
    the next round. *)
Lemma fetchLoop_retry srv url init hdrs attempt lastError st resp :
  attempt < maxRetries (this st) ->
  srv (fetch_count (trace st)) (request_of (this st) url init hdrs)
    = Resolved resp ->
  ok resp = false ->
  retriable (status resp) = true ->
  fetchLoop srv url init hdrs attempt lastError st =
  fetchLoop srv url init hdrs (attempt + 1) lastError
    (after st [EvFetch (request_of (this st) url init hdrs);
               EvSleep (getRetryDelay resp attempt)]).
Proof.
  intros Hlt Hsrv Hok Hretry.
  rewrite fetchLoop_step by lia. rewrite Hsrv, Hok, Hretry. cbn [negb].
  apply Z.ltb_lt in Hlt. rewrite Hlt. reflexivity.
Qed.

(** A terminal answer: a status that is not retriable, or any failure on
    the last attempt, is thrown by [throwForStatus] right after the fetch. *)
Lemma fetchLoop_terminal srv url init hdrs attempt lastError st resp :
  attempt <= maxRetries (this st) ->
  srv (fetch_count (trace st)) (request_of (this st) url init hdrs)
    = Resolved resp ->
  ok resp = false ->
  retriable (status resp) = false \/ attempt = maxRetries (this st) ->
  fetchLoop srv url init hdrs attempt lastError st =
  (Throw (statusError resp),
   after st [EvFetch (request_of (this st) url init hdrs)]).
Proof.
  intros Hle Hsrv Hok Hterm.
  rewrite fetchLoop_step by lia. rewrite Hsrv, Hok.
  destruct (retriable (status resp)); cbn [negb]; [ | reflexivity].
  destruct Hterm as [Hterm | Hlast]; [discriminate | ].
  replace (attempt <? maxRetries (this st)) with false
    by (symmetry; apply Z.ltb_ge; lia).
  reflexivity.
Qed.




Definition hinted : Response :=
  {| ok := false; status := 429; statusText := "Too Many Requests";
     retry_after := Some "1.5"; json := None |}.


Definition hint (value : string) : Response :=
  {| ok := false; status := 503; statusText := "Service Unavailable";
     retry_after := Some value; json := None |}.

(** The product is the binary64 one: 2.01 seconds are 2009.9999999999998
    milliseconds. *)
Example rounded_hint :
  getRetryDelay (hint "2.01") 0 = Fin (8840073487319039 # 4398046511104).
Proof. vm_compute. reflexivity. Qed.

(** A product that overflows below is not capped. *)
Example overflowing_hint : getRetryDelay (hint "-1e308") 0 = Infinity true.
Proof. vm_compute. reflexivity. Qed.

(** A no-break space before the number is skipped. *)
Example padded_hint :
  getRetryDelay (hint (String (ascii_of_nat 160) "1.5")) 0 = num 1500.
Proof. vm_compute. reflexivity. Qed.

(** A value below the smallest binary64 number is zero: no delay at all. *)
Example vanishing_hint : getRetryDelay (hint "1e-400") 3 = num 0.
Proof. vm_compute. reflexivity. Qed.

Example hinted_delay : getRetryDelay hinted 0 = num 1500.
Proof. vm_compute. reflexivity. Qed.

Example long_hint_capped :
  getRetryDelay {| ok := false; status := 429; statusText := "";
                   retry_after := Some "120"; json := None |} 0 = num 30000.
Proof. vm_compute. reflexivity. Qed.

Example date_hint_backs_off :
  getRetryDelay {| ok := false; status := 503; statusText := "";
                   retry_after := Some "Wed, 21 Oct 2015 07:28:00 GMT";
                   json := None |} 2 = num 2000.
Proof. vm_compute. reflexivity. Qed.

(* ===================================================================== *)
(** ** Typed errors *)
(* ===================================================================== *)

Lemma parseRetryAfter_value resp h :
  retry_after resp = Some h -> h <> "" ->
  Number_isFinite (Number h) = true ->
  parseRetryAfter resp = Some (Number h).
Proof.
  intros Hh Hne Hv. unfold parseRetryAfter.
  rewrite Hh, (truthy_nonempty h Hne). cbn [negb or_default].
  rewrite Hv. reflexivity.
Qed.

Lemma parseRetryAfter_null resp :
  retry_after resp = None \/ retry_after resp = Some "" \/
  (exists h, retry_after resp = Some h /\ Number_isFinite (Number h) = false) ->
  parseRetryAfter resp = None.
Proof.
  unfold parseRetryAfter. intros [H | [H | [h [Hh Hinf]]]].
  - rewrite H. reflexivity.
  - rewrite H. reflexivity.
  - rewrite Hh. cbn [or_default]. rewrite Hinf.
    destruct (negb (truthy (Some h))); reflexivity.
Qed.

Definition limited_empty_hint : Response :=
  {| ok := false; status := 429; statusText := "Too Many Requests";
     retry_after := Some ""; json := None |}.

(** C5, as stated, fails on a 429 response whose Retry-After header has an
    empty value: the value converts to the finite number 0, but the header
    is falsy and [retryAfter] is [null].  The same guard as in
    [getRetryDelay]. *)
Lemma empty_retry_after_is_null :
  status limited_empty_hint = 429 /\
  retry_after limited_empty_hint = Some "" /\
  Number "" = num 0 /\
  Number_isFinite (Number "") = true /\
  throwForStatus limited_empty_hint demo_state =
    (Throw (RateLimitError (JStr "Too Many Requests") None), demo_state) /\
  fst (fetchWithRetry (fun _ _ => Resolved limited_empty_hint)
         "https://api.langbly.com/x" get_init
         {| this := {| apiKey := "key"; baseUrl := "https://api.langbly.com";
                       timeout := 30000; maxRetries := 0 |};
            trace := [] |}) =
    Throw (RateLimitError (JStr "Too Many Requests") None) /\
  RateLimitError (JStr "Too Many Requests") None
    <> RateLimitError (JStr "Too Many Requests") (Some (Number "")).
Proof.
  repeat split; try (vm_compute; reflexivity).
  discriminate.
Qed.

(** C5, amended.  A response that is not [ok] and is terminal (its status
    is not retriable, or the attempt is the last) is thrown right after its
    fetch, as [throwForStatus] maps it: 401 to [AuthenticationError] (status
    401, code UNAUTHENTICATED); 429 to [RateLimitError] (status 429, code
    RATE_LIMITED) whose [retryAfter] is the number the Retry-After header
    converts to ([Number], the nearest binary64 value) when the header is
    present, not empty and that number is finite, and [null] otherwise; any
    other status to [LangblyError] with the status of the response and, as
    code, [error.status] of the body when the body parses and has one, the
    empty string otherwise. *)
Theorem terminal_status_errors srv url init hdrs attempt lastError st resp :
  attempt <= maxRetries (this st) ->
  srv (fetch_count (trace st)) (request_of (this st) url init hdrs)
    = Resolved resp ->
  ok resp = false ->
  retriable (status resp) = false \/ attempt = maxRetries (this st) ->
  exists e,
    fetchLoop srv url init hdrs attempt lastError st =
      (Throw e, after st [EvFetch (request_of (this st) url init hdrs)]) /\
    throwForStatus resp st = (Throw e, st) /\
    (status resp = 401 ->
     exn_name e = "AuthenticationError" /\ exn_status e = Some 401 /\
     exn_code e = Some (JStr "UNAUTHENTICATED")) /\
    (status resp = 429 ->
     exn_name e = "RateLimitError" /\ exn_status e = Some 429 /\
     exn_code e = Some (JStr "RATE_LIMITED") /\
     exists message retryAfter,
       e = RateLimitError message retryAfter /\
       (forall h, retry_after resp = Some h -> h <> "" ->
                  Number_isFinite (Number h) = true ->
                  retryAfter = Some (Number h)) /\
       (retry_after resp = None \/ retry_after resp = Some "" \/
        (exists h, retry_after resp = Some h /\
                   Number_isFinite (Number h) = false) ->
        retryAfter = None)) /\
    (status resp <> 401 -> status resp <> 429 ->
     exn_name e = "LangblyError" /\
     exists message code,
       e = LangblyError message (status resp) code /\
       (forall err,
           json resp = Some err ->
           is_nullish (opt_prop "status" (opt_prop "error" err)) = false ->
           code = opt_prop "status" (opt_prop "error" err)) /\
       (json resp = None \/
        (exists err, json resp = Some err /\
           is_nullish (opt_prop "status" (opt_prop "error" err)) = true) ->
        code = JStr "")).
Proof.
  intros Hle Hsrv Hok Hterm. exists (statusError resp).
  split; [now apply fetchLoop_terminal | ].
  split; [apply throwForStatus_throws | ].
  unfold statusError.
  destruct (error_details resp) as [message code] eqn:Hdetails.
  split; [ | split].
  - intros H401. rewrite H401. cbn. repeat split.
  - intros H429. rewrite H429. cbn. repeat split.
    exists message, (parseRetryAfter resp). split; [reflexivity | ]. split.
    + intros h. apply parseRetryAfter_value.
    + apply parseRetryAfter_null.
  - intros Hn401 Hn429.
    apply Z.eqb_neq in Hn401. apply Z.eqb_neq in Hn429.
    rewrite Hn401, Hn429. split; [reflexivity | ].
    exists message, code. split; [reflexivity | ].
    unfold error_details in Hdetails. split.
    + intros err Herr Hpresent. rewrite Herr in Hdetails.
      inversion Hdetails. unfold nullish_or. rewrite Hpresent. reflexivity.
    + intros [Hnone | [err [Herr Habsent]]].
      * rewrite Hnone in Hdetails. now inversion Hdetails.
      * rewrite Herr in Hdetails. inversion Hdetails.
        unfold nullish_or. rewrite Habsent. reflexivity.
Qed.

Definition not_found : Response :=
  {| ok := false; status := 404; statusText := "Not Found";
     retry_after := None;
     json := Some (JObj [("error",
                          JObj [("message", JStr "No such language");
                                ("status", JStr "NOT_FOUND")])]) |}.

Lemma terminal_status_errors_witness :
  exists e,
    fetchLoop (fun _ _ => Resolved not_found) "https://api.langbly.com/x"
      get_init [] 0 None demo_state =
      (Throw e,
       after demo_state
         [EvFetch (request_of (this demo_state) "https://api.langbly.com/x"
                     get_init [])]) /\
    e = LangblyError (JStr "No such language") 404 (JStr "NOT_FOUND").
Proof.
  destruct (terminal_status_errors (fun _ _ => Resolved not_found)
              "https://api.langbly.com/x" get_init [] 0 None demo_state
              not_found)
    as [e [Hrun [Hthrow _]]].
  - cbn. lia.
  - reflexivity.
  - reflexivity.
  - left. reflexivity.
  - exists e. split; [exact Hrun | ].
    rewrite throwForStatus_throws in Hthrow. inversion Hthrow. reflexivity.
Defined.

(* ===================================================================== *)
(** ** The constructor *)
(* ===================================================================== *)

(** C8.  With an [apiKey] that is missing or the empty string the
    constructor throws [Error("apiKey is required")]: no client is made. *)
Theorem constructor_requires_apiKey options :
  LangblyOptions.apiKey options = None \/
  LangblyOptions.apiKey options = Some "" ->
  constructor options = Throw (Error_ "apiKey is required") /\
  exn_name (Error_ "apiKey is required") = "Error" /\
  forall c, constructor options <> Ok c.
Proof.
  intros Hkey.
  assert (H : constructor options = Throw (Error_ "apiKey is required")).
  { unfold constructor. destruct Hkey as [H | H]; rewrite H; reflexivity. }
  split; [exact H | ]. split; [reflexivity | ].
  intros c. rewrite H. discriminate.
Qed.

Lemma constructor_requires_apiKey_witness :
  constructor {| LangblyOptions.apiKey := Some "";
                 LangblyOptions.baseUrl := None;
                 LangblyOptions.timeout := None;
                 LangblyOptions.maxRetries := Some 5 |}
  = Throw (Error_ "apiKey is required").
Proof.
  apply (constructor_requires_apiKey
           {| LangblyOptions.apiKey := Some "";
              LangblyOptions.baseUrl := None;
              LangblyOptions.timeout := None;
              LangblyOptions.maxRetries := Some 5 |}).
  right. reflexivity.
Defined.

(** With a key the constructor succeeds and fills in the defaults. *)
Example constructor_defaults :
  constructor {| LangblyOptions.apiKey := Some "key";
                 LangblyOptions.baseUrl := Some "https://example.test/";
                 LangblyOptions.timeout := None;
                 LangblyOptions.maxRetries := None |}
  = Ok {| apiKey := "key"; baseUrl := "https://example.test";
          timeout := 30000; maxRetries := 2 |}.
Proof. reflexivity. Qed.

(* ===================================================================== *)
(** ** Network failures *)
(* ===================================================================== *)

(** The events of [retries + 1] rejected fetches from [attempt] on: a
    backoff sleep after each fetch but the last. *)
Fixpoint rejected_rounds (req : Request) (attempt : Z) (retries : nat)
  : list event :=
  match retries with
  | O => [EvFetch req]
  | S k =>
      EvFetch req :: EvSleep (backoffDelay attempt)
        :: rejected_rounds req (attempt + 1) k
  end.

Lemma fetch_count_rejected_rounds req attempt retries :
  fetch_count (rejected_rounds req attempt retries) = S retries.
Proof.
  revert attempt. induction retries as [ | k IH]; intros attempt.
  - reflexivity.
  - cbn [rejected_rounds].
    change (fetch_count (EvFetch req :: EvSleep (backoffDelay attempt)
                           :: rejected_rounds req (attempt + 1) k))
      with (S (fetch_count (rejected_rounds req (attempt + 1) k))).
    now rewrite IH.
Qed.

Lemma sleep_count_rejected_rounds req attempt retries :
  sleep_count (rejected_rounds req attempt retries) = retries.
Proof.
  revert attempt. induction retries as [ | k IH]; intros attempt.
  - reflexivity.
  - cbn [rejected_rounds].
    change (sleep_count (EvFetch req :: EvSleep (backoffDelay attempt)
                           :: rejected_rounds req (attempt + 1) k))
      with (S (sleep_count (rejected_rounds req (attempt + 1) k))).
    now rewrite IH.
Qed.

(** A rejected fetch with attempts left: a backoff sleep, then the next
    round. *)
Lemma fetchLoop_rejected_retry srv url init hdrs attempt lastError st message :
  attempt < maxRetries (this st) ->
  srv (fetch_count (trace st)) (request_of (this st) url init hdrs)
    = Rejected message ->
  fetchLoop srv url init hdrs attempt lastError st =
  fetchLoop srv url init hdrs (attempt + 1) (Some (Error_ message))
    (after st [EvFetch (request_of (this st) url init hdrs);
               EvSleep (backoffDelay attempt)]).
Proof.
  intros Hlt Hsrv. rewrite fetchLoop_step by lia. rewrite Hsrv.
  apply Z.ltb_lt in Hlt. rewrite Hlt. reflexivity.
Qed.

Lemma fetchLoop_rejected_last srv url init hdrs attempt lastError st message :
  attempt = maxRetries (this st) ->
  srv (fetch_count (trace st)) (request_of (this st) url init hdrs)
    = Rejected message ->
  fetchLoop srv url init hdrs attempt lastError st =
  (Throw (LangblyError (JStr (connection_message (this st) message))
                       0 (JStr "CONNECTION_ERROR")),
   after st [EvFetch (request_of (this st) url init hdrs)]).
Proof.
  intros Hlast Hsrv. rewrite fetchLoop_step by lia. rewrite Hsrv.
  replace (attempt <? maxRetries (this st)) with false
    by (symmetry; apply Z.ltb_ge; lia).
  reflexivity.
Qed.

Lemma fetchLoop_all_rejected srv url init hdrs (msg : nat -> string) :
  forall (retries : nat) attempt lastError st,
    Z.of_nat retries = maxRetries (this st) - attempt ->
    (forall j, (j <= retries)%nat ->
       srv (fetch_count (trace st) + j)%nat (request_of (this st) url init hdrs)
       = Rejected (msg (fetch_count (trace st) + j)%nat)) ->
    fetchLoop srv url init hdrs attempt lastError st =
    (Throw (LangblyError
              (JStr (connection_message (this st)
                       (msg (fetch_count (trace st) + retries)%nat)))
              0 (JStr "CONNECTION_ERROR")),
     after st (rejected_rounds (request_of (this st) url init hdrs)
                 attempt retries)).
Proof.
  induction retries as [ | k IH]; intros attempt lastError st Hk Hrej.
  - rewrite (fetchLoop_rejected_last _ _ _ _ _ _ _
               (msg (fetch_count (trace st) + 0)%nat)).
    + reflexivity.
    + lia.
    + rewrite <- (Nat.add_0_r (fetch_count (trace st))) at 1.
      apply Hrej. lia.
  - rewrite (fetchLoop_rejected_retry _ _ _ _ _ _ _
               (msg (fetch_count (trace st) + 0)%nat)).
    + rewrite IH.
      * cbn [after this trace]. rewrite fetch_count_app.
        cbn [rejected_rounds]. unfold after. cbn [this trace].
        rewrite <- app_assoc.
        replace (fetch_count (trace st)
                 + fetch_count
                     [EvFetch (request_of (this st) url init hdrs);
                      EvSleep (backoffDelay attempt)] + k)%nat
          with (fetch_count (trace st) + S k)%nat by (cbn; lia).
        reflexivity.
      * cbn [after this]. lia.
      * intros j Hj. cbn [after this trace]. rewrite fetch_count_app.
        replace (fetch_count (trace st)
                 + fetch_count
                     [EvFetch (request_of (this st) url init hdrs);
                      EvSleep (backoffDelay attempt)] + j)%nat
          with (fetch_count (trace st) + S j)%nat by (cbn; lia).
        apply Hrej. lia.
    + lia.
    + rewrite <- (Nat.add_0_r (fetch_count (trace st))) at 1.
      apply Hrej. lia.
Qed.

(** C9.  When all [maxRetries + 1] fetches of a call reject, the call throws
    [LangblyError] with status 0, code CONNECTION_ERROR and the message
    "Request failed after <maxRetries + 1> attempts: <message of the last
    rejection>", after exactly that many fetches with a backoff sleep
    between them; and in any round a rejected fetch with attempts left is
    followed by the backoff sleep of that attempt and by another fetch. *)
Theorem rejected_fetches_connection_error srv url init :
  (forall st (msg : nat -> string),
      0 <= maxRetries (this st) ->
      (forall j, (j <= Z.to_nat (maxRetries (this st)))%nat ->
         srv (fetch_count (trace st) + j)%nat
             (request_of (this st) url init (headers_of (this st) init))
         = Rejected (msg (fetch_count (trace st) + j)%nat)) ->
      exists e tr,
        fetchWithRetry srv url init st = (Throw e, after st tr) /\
        e = LangblyError
              (JStr ("Request failed after " ++ show (maxRetries (this st) + 1)
                     ++ " attempts: "
                     ++ msg (fetch_count (trace st)
                             + Z.to_nat (maxRetries (this st)))%nat)%string)
              0 (JStr "CONNECTION_ERROR") /\
        exn_name e = "LangblyError" /\
        exn_status e = Some 0 /\
        exn_code e = Some (JStr "CONNECTION_ERROR") /\
        tr = rejected_rounds
               (request_of (this st) url init (headers_of (this st) init))
               0 (Z.to_nat (maxRetries (this st))) /\
        Z.of_nat (fetch_count tr) = maxRetries (this st) + 1 /\
        Z.of_nat (sleep_count tr) = maxRetries (this st)) /\
  (forall hdrs attempt lastError st message,
      attempt < maxRetries (this st) ->
      srv (fetch_count (trace st)) (request_of (this st) url init hdrs)
        = Rejected message ->
      fetchLoop srv url init hdrs attempt lastError st =
      fetchLoop srv url init hdrs (attempt + 1) (Some (Error_ message))
        (after st [EvFetch (request_of (this st) url init hdrs);
                   EvSleep (backoffDelay attempt)]) /\
      exists tr,
        snd (fetchLoop srv url init hdrs attempt lastError st) =
        after st ([EvFetch (request_of (this st) url init hdrs);
                   EvSleep (backoffDelay attempt);
                   EvFetch (request_of (this st) url init hdrs)] ++ tr)).
Proof.
  split.
  - intros st msg Hn Hrej. rewrite fetchWithRetry_loop.
    rewrite (fetchLoop_all_rejected srv url init (headers_of (this st) init)
               msg (Z.to_nat (maxRetries (this st)))) by (lia || exact Hrej).
    eexists. eexists. split; [reflexivity | ].
    split; [reflexivity | ].
    rewrite fetch_count_rejected_rounds, sleep_count_rejected_rounds.
    repeat split; lia.
  - intros hdrs attempt lastError st message Hlt Hsrv.
    rewrite (fetchLoop_rejected_retry _ _ _ _ _ _ _ message Hlt Hsrv).
    split; [reflexivity | ].
    destruct (fetchLoop_fetches_first srv url init hdrs (attempt + 1)
                (Some (Error_ message))
                (after st [EvFetch (request_of (this st) url init hdrs);
                           EvSleep (backoffDelay attempt)]))
      as [tr Htr].
    { cbn [after this]. lia. }
    exists tr. rewrite Htr, after_after. reflexivity.
Qed.

Definition unreachable : Server := fun _ _ => Rejected "fetch failed".

Lemma rejected_fetches_connection_error_witness :
  0 <= maxRetries (this demo_state) /\
  exists e tr,
    fetchWithRetry unreachable "https://api.langbly.com/x" get_init demo_state
      = (Throw e, after demo_state tr) /\
    e = LangblyError (JStr "Request failed after 3 attempts: fetch failed")
          0 (JStr "CONNECTION_ERROR") /\
    Z.of_nat (fetch_count tr) = 3.
Proof.
  assert (H0 : 0 <= maxRetries (this demo_state)) by (cbn; lia).
  split; [exact H0 | ].
  destruct (proj1 (rejected_fetches_connection_error unreachable
                     "https://api.langbly.com/x" get_init)
              demo_state (fun _ => "fetch failed"%string) H0)
    as [e [tr [Hrun [He [_ [_ [_ [_ [Hcount _]]]]]]]]].
  - intros j _. reflexivity.
  - exists e, tr. split; [exact Hrun | ]. split; [exact He | exact Hcount].
Defined.

Example unreachable_trace :
  trace (snd (fetchWithRetry unreachable "https://api.langbly.com/x" get_init
                demo_state)) =
  let req :=
    {| url := "https://api.langbly.com/x"; method := "GET";
       headers := [("Authorization", "Bearer key");
                   ("User-Agent", "langbly-js/0.1.0")];
       body := None; signal := 30000 |} in
  [EvFetch req; EvSleep (num 500); EvFetch req; EvSleep (num 1000);
   EvFetch req].
Proof. vm_compute. reflexivity. Qed.

(* ===================================================================== *)
(** ** The client object is never written *)
(* ===================================================================== *)

Lemma frame_fetchLoop srv url init hdrs attempt lastError :
  frame (fun st => fetchLoop srv url init hdrs attempt lastError st).
Proof.
  intros st.
  destruct (fetchLoop_run srv url init hdrs _ attempt lastError st eq_refl)
    as [tr [Hst _ _ _ _ _]].
  rewrite Hst. reflexivity.
Qed.

Lemma frame_fetchWithRetry srv url init : frame (fetchWithRetry srv url init).
Proof.
  unfold fetchWithRetry. apply frame_bind; [apply frame_this_field | ].
  intros key. apply frame_fetchLoop.
Qed.

Lemma frame_prop k v : frame (prop k v).
Proof. unfold prop. destruct (is_nullish v); auto with frame. Qed.

Lemma frame_index0 v : frame (index0 v).
Proof. unfold index0. destruct (is_nullish v); auto with frame. Qed.

Lemma frame_resp_json resp : frame (resp_json resp).
Proof. unfold resp_json. destruct (json resp); auto with frame. Qed.

Lemma frame_mapM {A B} (f : A -> M B) l :
  (forall a, frame (f a)) -> frame (mapM f l).
Proof.
  intros Hf. induction l as [ | x r IH]; cbn [mapM].
  - apply frame_ret.
  - apply frame_bind; [apply Hf | intros y].
    apply frame_bind; [exact IH | intros ys]. apply frame_ret.
Qed.

Lemma frame_array_map {B} (f : jsval -> M B) v :
  (forall a, frame (f a)) -> frame (array_map f v).
Proof.
  intros Hf. destruct v; cbn [array_map]; try apply frame_throw.
  now apply frame_mapM.
Qed.

Lemma frame_postWithRetry srv path body : frame (postWithRetry srv path body).
Proof.
  unfold postWithRetry. apply frame_bind; [apply frame_this_field | ].
  intros base. apply frame_bind; [apply frame_fetchWithRetry | ].
  intros resp. apply frame_resp_json.
Qed.

Lemma frame_to_translation options item : frame (to_translation options item).
Proof.
  unfold to_translation.
  repeat (apply frame_bind; [apply frame_prop | intro]). apply frame_ret.
Qed.

Lemma frame_translate srv text options : frame (translate srv text options).
Proof.
  unfold translate.
  apply frame_bind; [apply frame_postWithRetry | intros data].
  repeat (apply frame_bind; [apply frame_prop | intro]).
  apply frame_bind; [ | intro; apply frame_ret].
  apply frame_array_map. apply frame_to_translation.
Qed.

Lemma frame_detect srv text : frame (detect srv text).
Proof.
  unfold detect.
  apply frame_bind; [apply frame_postWithRetry | intros data].
  repeat (apply frame_bind; [apply frame_prop | intro]).
  repeat (apply frame_bind; [apply frame_index0 | intro]).
  repeat (apply frame_bind; [apply frame_prop | intro]).
  apply frame_ret.
Qed.

Lemma frame_languages srv target : frame (languages srv target).
Proof.
  unfold languages.
  apply frame_bind; [apply frame_this_field | intros base].
  apply frame_bind; [apply frame_fetchWithRetry | intros resp].
  apply frame_bind; [apply frame_resp_json | intros data].
  repeat (apply frame_bind; [apply frame_prop | intro]).
  apply frame_array_map. intros lang.
  repeat (apply frame_bind; [apply frame_prop | intro]). apply frame_ret.
Qed.

(** C7.  [translate], [detect] and [languages] leave [apiKey], [baseUrl],
    [timeout] and [maxRetries] as the constructor set them, whatever the
    server answers and however the call ends; so a call made after another
    one runs on the client object the first call was given. *)
Theorem operations_keep_configuration srv :
  (forall text options st,
      this (snd (translate srv text options st)) = this st) /\
  (forall text st, this (snd (detect srv text st)) = this st) /\
  (forall target st, this (snd (languages srv target st)) = this st) /\
  (forall options c,
      constructor options = Ok c ->
      apiKey c = or_default (LangblyOptions.apiKey options) "" /\
      baseUrl c = strip_trailing_slash
                    (or_default (LangblyOptions.baseUrl options)
                                "https://api.langbly.com") /\
      timeout c = or_default (LangblyOptions.timeout options) 30000 /\
      maxRetries c = or_default (LangblyOptions.maxRetries options) 2) /\
  (forall (A B : Type) (first : M A) (second : M B) st,
      frame first ->
      second (snd (first st)) =
      second {| this := this st; trace := trace (snd (first st)) |}).
Proof.
  split; [intros; apply frame_translate | ].
  split; [intros; apply frame_detect | ].
  split; [intros; apply frame_languages | ].
  split.
  - intros options c. unfold constructor.
    destruct (negb (truthy (LangblyOptions.apiKey options)));
      [discriminate | ].
    intros H. inversion H. cbn. repeat split.
  - intros A B first second st Hframe. specialize (Hframe st).
    destruct (snd (first st)) as [c tr]. cbn in *. now subst c.
Qed.

Definition nonretriable_then_ok : Server :=
  fun n _ =>
    match n with
    | O => Resolved not_found
    | _ => Resolved unavailable
    end.

Lemma operations_keep_configuration_witness :
  this (snd (detect nonretriable_then_ok "Bonjour" demo_state)) = demo_client /\
  languages always_unavailable None
    (snd (detect nonretriable_then_ok "Bonjour" demo_state)) =
  languages always_unavailable None
    {| this := demo_client;
       trace := trace (snd (detect nonretriable_then_ok "Bonjour" demo_state)) |}.
Proof.
  destruct (operations_keep_configuration nonretriable_then_ok)
    as [_ [Hdetect [_ [_ Hnext]]]].
  split.
  - apply (Hdetect "Bonjour" demo_state).
  - apply (Hnext _ _ (detect nonretriable_then_ok "Bonjour")
             (languages always_unavailable None) demo_state).
    apply frame_detect.
Defined.

(* ===================================================================== *)
(** ** Translation requests and results *)
(* ===================================================================== *)

(** A computation is [quiet] when it performs no effect at all. *)
Definition quiet {A} (m : M A) : Prop := forall st, snd (m st) = st.

Lemma quiet_ret {A} (a : A) : quiet (ret a).
Proof. intros st. reflexivity. Qed.

Lemma quiet_throw {A} (e : exn) : quiet (@throw A e).
Proof. intros st. reflexivity. Qed.

Lemma quiet_bind {A B} (m : M A) (k : A -> M B) :
  quiet m -> (forall a, quiet (k a)) -> quiet (bind m k).
Proof.
  intros Hm Hk st. unfold bind. specialize (Hm st).
  destruct (m st) as [[a | e] st1]; cbn in *; subst st1.
  - apply Hk.
  - reflexivity.
Qed.

Lemma quiet_prop k v : quiet (prop k v).
Proof. unfold prop. destruct (is_nullish v); [apply quiet_throw | apply quiet_ret]. Qed.

Lemma quiet_resp_json resp : quiet (resp_json resp).
Proof. unfold resp_json. destruct (json resp); [apply quiet_ret | apply quiet_throw]. Qed.

Lemma quiet_mapM {A B} (f : A -> M B) l :
  (forall a, quiet (f a)) -> quiet (mapM f l).
Proof.
  intros Hf. induction l as [ | x r IH]; cbn [mapM].
  - apply quiet_ret.
  - apply quiet_bind; [apply Hf | intros y].
    apply quiet_bind; [exact IH | intros ys]. apply quiet_ret.
Qed.

Lemma quiet_array_map {B} (f : jsval -> M B) v :
  (forall a, quiet (f a)) -> quiet (array_map f v).
Proof.
  intros Hf. destruct v; cbn [array_map]; try apply quiet_throw.
  now apply quiet_mapM.
Qed.

Lemma quiet_to_translation options item : quiet (to_translation options item).
Proof.
  unfold to_translation.
  repeat (apply quiet_bind; [apply quiet_prop | intro]). apply quiet_ret.
Qed.

Lemma snd_bind_quiet {A B} (m : M A) (k : A -> M B) st :
  (forall a, quiet (k a)) -> snd (bind m k st) = snd (m st).
Proof.
  intros Hk. unfold bind.
  destruct (m st) as [[a | e] st1]; cbn; [apply Hk | reflexivity].
Qed.

Lemma bind_Ok_inv {A B} (m : M A) (k : A -> M B) st b :
  fst (bind m k st) = Ok b ->
  exists a, fst (m st) = Ok a /\ fst (k a (snd (m st))) = Ok b.
Proof.
  unfold bind. destruct (m st) as [[a | e] st1]; cbn.
  - intros H. now exists a.
  - discriminate.
Qed.

Lemma prop_Ok_inv k v st x :
  fst (prop k v st) = Ok x -> x = own_prop k v.
Proof.
  unfold prop. destruct (is_nullish v); cbn; [discriminate | ].
  intros H. now inversion H.
Qed.

Lemma resp_json_Ok_inv resp st v :
  fst (resp_json resp st) = Ok v -> json resp = Some v.
Proof.
  unfold resp_json. destruct (json resp); cbn; [ | discriminate].
  intros H. now inversion H.
Qed.

(** The record that the callback of [translate] builds from one item. *)
Definition translation_record (options : TranslateOptions.t) (item : jsval)
  : Translation :=
  {| text := own_prop "translatedText" item;
     source := nullish_or
                 (nullish_or (own_prop "detectedSourceLanguage" item)
                             (opt_str (TranslateOptions.source options)))
                 (JStr "");
     model := own_prop "model" item |}.

Lemma to_translation_Ok_inv options item st t :
  fst (to_translation options item st) = Ok t ->
  t = translation_record options item.
Proof.
  unfold to_translation. intros H.
  apply bind_Ok_inv in H. destruct H as [x1 [H1 H]].
  apply bind_Ok_inv in H. destruct H as [x2 [H2 H]].
  apply bind_Ok_inv in H. destruct H as [x3 [H3 H]].
  apply prop_Ok_inv in H1, H2, H3. subst x1 x2 x3.
  cbn in H. now inversion H.
Qed.

Lemma mapM_to_translation_Ok_inv options items :
  forall st ts,
    fst (mapM (to_translation options) items st) = Ok ts ->
    ts = map (translation_record options) items.
Proof.
  induction items as [ | item r IH]; intros st ts H; cbn [mapM] in H.
  - cbn in H. now inversion H.
  - apply bind_Ok_inv in H. destruct H as [t [Ht H]].
    apply bind_Ok_inv in H. destruct H as [ts' [Hts H]].
    apply to_translation_Ok_inv in Ht. apply IH in Hts.
    cbn in H. inversion H. subst. reflexivity.
Qed.

Definition post_init (body : jsval) : RequestInit :=
  {| init_method := "POST";
     init_headers := Some [("Content-Type", "application/json")];
     init_body := Some body |}.

Definition texts_of (text : TextArg) : list string :=
  match text with Batch l => l | Single s => [s] end.

(** The one request that [translate] sends, once per attempt. *)
Definition translate_request (c : Langbly) (q : list string)
    (options : TranslateOptions.t) : Request :=
  {| url := (baseUrl c ++ "/language/translate/v2")%string;
     method := "POST";
     headers := [("Authorization", ("Bearer " ++ apiKey c)%string);
                 ("User-Agent", "langbly-js/0.1.0");
                 ("Content-Type", "application/json")];
     body := Some (translate_body q options);
     signal := timeout c |}.

Lemma translate_request_of c q options :
  request_of c (baseUrl c ++ "/language/translate/v2")%string
    (post_init (translate_body q options))
    (headers_of c (post_init (translate_body q options)))
  = translate_request c q options.
Proof. reflexivity. Qed.

(** The effects of [translate] are those of its one [fetchWithRetry]. *)
Lemma translate_effects srv text options st :
  snd (translate srv text options st) =
  snd (fetchWithRetry srv (baseUrl (this st) ++ "/language/translate/v2")%string
         (post_init (translate_body (texts_of text) options)) st).
Proof.
  unfold translate. rewrite snd_bind_quiet.
  - unfold postWithRetry. unfold bind at 1. unfold this_field.
    cbv beta iota. rewrite snd_bind_quiet; [reflexivity | ].
    intros resp. apply quiet_resp_json.
  - intros data.
    repeat (apply quiet_bind; [apply quiet_prop | intro]).
    apply quiet_bind; [ | intro; apply quiet_ret].
    apply quiet_array_map. apply quiet_to_translation.
Qed.

(** A result of [translate] is read off the response that [fetchWithRetry]
    returned. *)
Lemma translate_Ok_inv srv text options st res :
  fst (translate srv text options st) = Ok res ->
  exists resp data items,
    fst (fetchWithRetry srv
           (baseUrl (this st) ++ "/language/translate/v2")%string
           (post_init (translate_body (texts_of text) options)) st) = Ok resp /\
    json resp = Some data /\
    own_prop "translations" (own_prop "data" data) = JArr items /\
    res = match text with
          | Batch _ => Many (map (translation_record options) items)
          | Single _ =>
              One (hd_error (map (translation_record options) items))
          end.
Proof.
  unfold translate. intros H.
  apply bind_Ok_inv in H. destruct H as [data [Hpost H]].
  apply bind_Ok_inv in H. destruct H as [d [Hd H]].
  apply bind_Ok_inv in H. destruct H as [ts [Hts H]].
  apply bind_Ok_inv in H. destruct H as [translations [Hmap H]].
  apply prop_Ok_inv in Hd, Hts. subst d ts.
  unfold postWithRetry in Hpost. unfold bind at 1 in Hpost.
  unfold this_field in Hpost. cbv beta iota in Hpost.
  apply bind_Ok_inv in Hpost. destruct Hpost as [resp [Hresp Hjson]].
  apply resp_json_Ok_inv in Hjson.
  exists resp, data.
  destruct (own_prop "translations" (own_prop "data" data))
    as [ | | | | | items | ] eqn:Hitems;
    cbn [array_map] in Hmap; try discriminate Hmap.
  exists items. split; [exact Hresp | ]. split; [exact Hjson | ].
  split; [reflexivity | ].
  apply mapM_to_translation_Ok_inv in Hmap. subst translations.
  cbn in H. inversion H. reflexivity.
Qed.

Definition translated : Response :=
  {| ok := true; status := 200; statusText := "OK"; retry_after := None;
     json :=
       Some (JObj
         [("data",
           JObj [("translations",
                  JArr [JObj [("translatedText", JStr "Hallo");
                              ("detectedSourceLanguage", JStr "en")];
                        JObj [("translatedText", JStr "Welt")]])])]) |}.

Definition busy_then_translated : Server :=
  fun n _ =>
    match n with
    | O => Resolved unavailable
    | _ => Resolved translated
    end.

Definition to_german : TranslateOptions.t :=
  {| TranslateOptions.target := "de"; TranslateOptions.source := None;
     TranslateOptions.format := None |}.

(** C6, as stated, fails when the first answer is retriable: one call of
    [translate] on the default client, against a server that answers 503
    and then 200, issues two POST requests (with the same body) before it
    returns the translations. *)
Lemma translate_posts_twice :
  translate busy_then_translated (Batch ["Hello"; "World"]) to_german
    demo_state =
  (let req :=
    {| url := "https://api.langbly.com/language/translate/v2";
       method := "POST";
       headers := [("Authorization", "Bearer key");
                   ("User-Agent", "langbly-js/0.1.0");
                   ("Content-Type", "application/json")];
       body := Some (JObj [("q", JArr [JStr "Hello"; JStr "World"]);
                           ("target", JStr "de")]);
       signal := 30000 |} in
  (Ok (Many [ {| text := JStr "Hallo"; source := JStr "en";
                 model := Undefined |};
              {| text := JStr "Welt"; source := JStr "";
                 model := Undefined |} ]),
   {| this := demo_client;
      trace := [EvFetch req; EvSleep (num 500); EvFetch req] |})) /\
  fetch_count
    (trace (snd (translate busy_then_translated (Batch ["Hello"; "World"])
                   to_german demo_state))) = 2%nat /\
  2%nat <> 1%nat.
Proof.
  split; [vm_compute; reflexivity | ].
  split; [vm_compute; reflexivity | discriminate].
Qed.

(** C6, amended.  A call of [translate] goes through [fetchWithRetry] once:
    every fetch it issues is the same POST to [/language/translate/v2],
    whose body has as [q] the texts as given, in their order (a string as a
    one-element array); there is one per attempt: at most [maxRetries + 1],
    at least one when [maxRetries >= 0] and none when [maxRetries] is
    negative, exactly one when [maxRetries >= 0] and the first answer is
    [ok]; and a result is the array [data.data.translations] of the [ok]
    answer to the last fetch, mapped item by item, for an array of texts,
    and its first element for a string. *)
Theorem translate_posts_texts srv text options st :
  let q := texts_of text in
  let req := translate_request (this st) q options in
  method req = "POST" /\
  (exists b, body req = Some b /\ own_prop "q" b = JArr (map JStr q)) /\
  (forall s, texts_of (Single s) = [s]) /\
  (forall l, texts_of (Batch l) = l) /\
  exists tr,
    snd (translate srv text options st) = after st tr /\
    (forall r, In (EvFetch r) tr -> r = req) /\
    Z.of_nat (fetch_count tr) <= Z.max 0 (maxRetries (this st) + 1) /\
    (0 <= maxRetries (this st) -> 1 <= Z.of_nat (fetch_count tr)) /\
    (maxRetries (this st) < 0 -> tr = []) /\
    (0 <= maxRetries (this st) ->
     forall resp,
       srv (fetch_count (trace st)) req = Resolved resp -> ok resp = true ->
       tr = [EvFetch req]) /\
    (forall res,
        fst (translate srv text options st) = Ok res ->
        exists tr' resp data items,
          tr = tr' ++ [EvFetch req] /\
          srv (fetch_count (trace st ++ tr')) req = Resolved resp /\
          ok resp = true /\
          json resp = Some data /\
          own_prop "translations" (own_prop "data" data) = JArr items /\
          res = match text with
                | Batch _ => Many (map (translation_record options) items)
                | Single _ =>
                    One (hd_error (map (translation_record options) items))
                end).
Proof.
  intros q req.
  split; [reflexivity | ].
  split; [eexists; split; reflexivity | ].
  split; [reflexivity | ]. split; [reflexivity | ].
  pose proof (translate_effects srv text options st) as Heff.
  rewrite fetchWithRetry_loop in Heff.
  set (url := (baseUrl (this st) ++ "/language/translate/v2")%string) in *.
  set (init := post_init (translate_body (texts_of text) options)) in *.
  destruct (fetchLoop_run srv url init (headers_of (this st) init)
              (Z.to_nat (maxRetries (this st) + 1)) 0 None st)
    as [tr [Hst Hreq Hb He Hsl Hres]].
  { f_equal. lia. }
  change (request_of (this st) url init (headers_of (this st) init))
    with req in *.
  exists tr. split; [now rewrite Heff | ].
  split; [exact Hreq | ].
  split; [lia | ]. split; [ | split; [ | split]].
  - intros Hn.
    assert (H1 : (1 <= fetch_count tr)%nat).
    { apply He. apply Z.leb_le. exact Hn. }
    lia.
  - intros Hneg. rewrite fetchLoop_exit in Hst by exact Hneg.
    cbn [snd] in Hst. unfold after in Hst.
    destruct st as [c tr0]. cbn [this trace] in Hst.
    inversion Hst as [Htrace].
    rewrite <- (app_nil_r tr0) in Htrace at 1.
    apply app_inv_head in Htrace. now symmetry.
  - intros Hn resp Hsrv Hok.
    assert (Hrun : fetchLoop srv url init (headers_of (this st) init) 0 None st
                   = (Ok resp, after st [EvFetch req])).
    { rewrite fetchLoop_step by exact Hn.
      change (request_of (this st) url init (headers_of (this st) init))
        with req.
      rewrite Hsrv, Hok. reflexivity. }
    rewrite Hrun in Hst. cbn [snd] in Hst. unfold after in Hst.
    inversion Hst as [Htrace]. now apply app_inv_head in Htrace.
  - intros res Hresult.
    apply translate_Ok_inv in Hresult.
    destruct Hresult as [resp [data [items [Hresp [Hjson [Hitems Hr]]]]]].
    rewrite fetchWithRetry_loop in Hresp. fold url init in Hresp.
    rewrite Hresp in Hres. destruct Hres as [Hok [tr' [Htr Hsrv]]].
    exists tr', resp, data, items. repeat split; assumption.
Qed.

Lemma translate_posts_texts_witness :
  0 <= maxRetries (this demo_state) /\
  exists tr,
    snd (translate busy_then_translated (Single "Hello") to_german demo_state)
      = after demo_state tr /\
    (forall r, In (EvFetch r) tr ->
               r = translate_request demo_client ["Hello"] to_german) /\
    1 <= Z.of_nat (fetch_count tr) <= 3.
Proof.
  assert (H0 : 0 <= maxRetries (this demo_state)) by (cbn; lia).
  split; [exact H0 | ].
  destruct (translate_posts_texts busy_then_translated (Single "Hello")
              to_german demo_state)
    as [_ [_ [_ [_ [tr [Hst [Hreq [Hmost [Hleast _]]]]]]]]].
  exists tr. split; [exact Hst | ]. split; [exact Hreq | ].
  split; [exact (Hleast H0) | exact Hmost].
Defined.

(** Against a server that answers at once there is exactly one request. *)
Example translate_posts_once :
  fetch_count
    (trace (snd (translate (fun _ _ => Resolved translated)
                   (Batch ["Hello"; "World"]) to_german demo_state))) = 1%nat.
Proof. vm_compute. reflexivity. Qed.

(** The translations inside a result of [translate]. *)
Definition translations_in (res : Translated) : list Translation :=
  match res with
  | Many ts => ts
  | One (Some t) => [t]
  | One None => []
  end.

Lemma hd_error_In {A} (l : list A) (a : A) : hd_error l = Some a -> In a l.
Proof. destruct l; cbn; [discriminate | ]. intros H. inversion H. now left. Qed.

Lemma nullish_or_not_nullish v s : is_nullish (nullish_or v (JStr s)) = false.
Proof. unfold nullish_or. destruct (is_nullish v) eqn:H; [reflexivity | exact H]. Qed.

(** C10.  Every [Translation] that [translate] returns was built from one
    item of [data.data.translations]; its [source] is the item's
    [detectedSourceLanguage] when that is neither missing nor [null],
    otherwise [options.source] when the caller gave one, otherwise the empty
    string; it is never [undefined] (nor [null]). *)
Theorem translate_source srv input options st res :
  fst (translate srv input options st) = Ok res ->
  forall t, In t (translations_in res) ->
    source t <> Undefined /\ source t <> Null /\
    exists resp data items item,
      fst (fetchWithRetry srv
             (baseUrl (this st) ++ "/language/translate/v2")%string
             (post_init (translate_body (texts_of input) options)) st)
        = Ok resp /\
      json resp = Some data /\
      own_prop "translations" (own_prop "data" data) = JArr items /\
      In item items /\
      text t = own_prop "translatedText" item /\
      let detected := own_prop "detectedSourceLanguage" item in
      (is_nullish detected = false -> source t = detected) /\
      (is_nullish detected = true ->
       forall s, TranslateOptions.source options = Some s ->
                 source t = JStr s) /\
      (is_nullish detected = true ->
       TranslateOptions.source options = None -> source t = JStr "").
Proof.
  intros Hres t Hin.
  apply translate_Ok_inv in Hres.
  destruct Hres as [resp [data [items [Hresp [Hjson [Hitems Hr]]]]]].
  assert (Hitem : exists item,
             In item items /\ t = translation_record options item).
  { assert (Hmap : In t (map (translation_record options) items)).
    { subst res. destruct input as [s | l]; cbn [translations_in] in Hin.
      - destruct (hd_error (map (translation_record options) items))
          as [t' | ] eqn:Hhd; [ | contradiction].
        destruct Hin as [Ht | []]. subst t'. now apply hd_error_In.
      - exact Hin. }
    apply in_map_iff in Hmap. destruct Hmap as [item [Ht Hi]].
    exists item. split; [exact Hi | now symmetry]. }
  destruct Hitem as [item [Hi Ht]]. subst t.
  assert (Hnn : is_nullish (source (translation_record options item)) = false).
  { apply nullish_or_not_nullish. }
  split; [intros H; rewrite H in Hnn; discriminate | ].
  split; [intros H; rewrite H in Hnn; discriminate | ].
  exists resp, data, items, item.
  repeat (split; [assumption || reflexivity | ]).
  cbn [translation_record source]. unfold nullish_or at 2 4 6.
  split; [ | split].
  - intros Hd. rewrite Hd. unfold nullish_or. rewrite Hd. reflexivity.
  - intros Hd s Hs. rewrite Hd, Hs. reflexivity.
  - intros Hd Hs. rewrite Hd, Hs. reflexivity.
Qed.

Lemma translate_source_witness :
  fst (translate busy_then_translated (Batch ["Hello"; "World"]) to_german
         demo_state) =
  Ok (Many [ {| text := JStr "Hallo"; source := JStr "en";
                model := Undefined |};
             {| text := JStr "Welt"; source := JStr "";
                model := Undefined |} ]) /\
  source {| text := JStr "Welt"; source := JStr ""; model := Undefined |}
    <> Undefined.
Proof.
  assert (Hrun : fst (translate busy_then_translated
                        (Batch ["Hello"; "World"]) to_german demo_state) =
                 Ok (Many [ {| text := JStr "Hallo"; source := JStr "en";
                               model := Undefined |};
                            {| text := JStr "Welt"; source := JStr "";
                               model := Undefined |} ])).
  { vm_compute. reflexivity. }
  split; [exact Hrun | ].
  apply (translate_source busy_then_translated (Batch ["Hello"; "World"])
           to_german demo_state _ Hrun).
  cbn. right. left. reflexivity.
Defined.

(** The caller's [source] is used for an item without a detected one. *)
Example translate_source_from_options :
  fst (translate (fun _ _ => Resolved translated) (Single "World")
         {| TranslateOptions.target := "de";
            TranslateOptions.source := Some "en";
            TranslateOptions.format := None |} demo_state) =
  Ok (One (Some {| text := JStr "Hallo"; source := JStr "en";
                   model := Undefined |})).
Proof. vm_compute. reflexivity. Qed.

(* ===================================================================== *)
(** ** [Number] on sample header values *)
(* ===================================================================== *)

Example Number_empty : Number "" = num 0.
Proof. reflexivity. Qed.

Example Number_int : Number "120" = num 120.
Proof. reflexivity. Qed.

Example Number_frac : Number " 1.5 " = Fin (3 # 2).
Proof. reflexivity. Qed.

Example Number_exp : Number "2e3" = num 2000.
Proof. reflexivity. Qed.

Example Number_hex : Number "0x1F" = num 31.
Proof. reflexivity. Qed.

Example Number_date : Number "Wed, 21 Oct 2015 07:28:00 GMT" = NaN.
Proof. reflexivity. Qed.

Example Number_inf : Number "-Infinity" = Infinity true.
Proof. reflexivity. Qed.

Example Number_overflow : Number "1e310" = Infinity false.
Proof. vm_compute. reflexivity. Qed.

Example Number_largest :
  Number_isFinite (Number "1.7976931348623157e308") = true.
Proof. vm_compute. reflexivity. Qed.

(* ===================================================================== *)
(** ** The whole run of [fetchWithRetry] *)
(* ===================================================================== *)

(** An outcome after which the loop goes on when attempts are left: a
    rejected fetch, or a response that is not [ok] with a retriable status. *)
Definition retry_worthy (o : FetchOutcome) : bool :=
  match o with
  | Rejected _ => true
  | Resolved resp => negb (ok resp) && retriable (status resp)
  end.

(** The sleep that follows such an outcome. *)
Definition delay_after (o : FetchOutcome) (attempt : Z) : number :=
  match o with
  | Rejected _ => backoffDelay attempt
  | Resolved resp => getRetryDelay resp attempt
  end.

(** How the call ends on the outcome of its last fetch. *)
Definition final_result (c : Langbly) (o : FetchOutcome) : result Response :=
  match o with
  | Resolved resp => if ok resp then Ok resp else Throw (statusError resp)
  | Rejected message =>
      Throw (LangblyError (JStr (connection_message c message))
                          0 (JStr "CONNECTION_ERROR"))
  end.

(** The events of [k] retried rounds and a last one, the first fetch being
    the [first]-th that the server sees. *)
Fixpoint retry_rounds (srv : Server) (req : Request) (first : nat)
    (attempt : Z) (k : nat) : list event :=
  match k with
  | O => [EvFetch req]
  | S k' =>
      EvFetch req :: EvSleep (delay_after (srv first req) attempt)
        :: retry_rounds srv req (S first) (attempt + 1) k'
  end.

Lemma retry_worthy_Resolved resp :
  retry_worthy (Resolved resp) = true ->
  ok resp = false /\ retriable (status resp) = true.
Proof.
  cbn [retry_worthy]. intros H. apply andb_true_iff in H. destruct H as [H1 H2].
  split; [now apply negb_true_iff | exact H2].
Qed.

Lemma fetchLoop_outcome srv url init hdrs :
  forall (k : nat) attempt lastError st,
    attempt + Z.of_nat k <= maxRetries (this st) ->
    (forall j, (j < k)%nat ->
       retry_worthy (srv (fetch_count (trace st) + j)%nat
                         (request_of (this st) url init hdrs)) = true) ->
    attempt + Z.of_nat k = maxRetries (this st) \/
    retry_worthy (srv (fetch_count (trace st) + k)%nat
                      (request_of (this st) url init hdrs)) = false ->
    fetchLoop srv url init hdrs attempt lastError st =
    (final_result (this st)
       (srv (fetch_count (trace st) + k)%nat
            (request_of (this st) url init hdrs)),
     after st (retry_rounds srv (request_of (this st) url init hdrs)
                 (fetch_count (trace st)) attempt k)).
Proof.
  induction k as [ | k IH]; intros attempt lastError st Hle Hbefore Hstop.
  - rewrite fetchLoop_step by lia.
    rewrite Nat.add_0_r in *. cbn [retry_rounds].
    destruct (srv (fetch_count (trace st)) (request_of (this st) url init hdrs))
      as [resp | message] eqn:Hsrv; cbn [final_result].
    + destruct (ok resp) eqn:Hok; [reflexivity | ].
      destruct (retriable (status resp)) eqn:Hretry; cbn [negb];
        [ | reflexivity].
      destruct Hstop as [Hlast | Hno].
      * replace (attempt <? maxRetries (this st)) with false
          by (symmetry; apply Z.ltb_ge; lia).
        reflexivity.
      * cbn [retry_worthy] in Hno. rewrite Hok, Hretry in Hno. discriminate.
    + destruct Hstop as [Hlast | Hno]; [ | discriminate].
      replace (attempt <? maxRetries (this st)) with false
        by (symmetry; apply Z.ltb_ge; lia).
      reflexivity.
  - assert (Hlt : attempt < maxRetries (this st)) by lia.
    pose proof (Hbefore 0%nat ltac:(lia)) as Hfirst.
    rewrite Nat.add_0_r in Hfirst.
    assert (Hcount : forall d j,
               (fetch_count
                  (trace (after st [EvFetch (request_of (this st) url init hdrs);
                                    EvSleep d])) + j)%nat
               = (fetch_count (trace st) + S j)%nat).
    { intros d j. cbn [after trace]. rewrite fetch_count_app. cbn. lia. }
    assert (Hnext : forall le d,
               d = delay_after
                     (srv (fetch_count (trace st))
                          (request_of (this st) url init hdrs)) attempt ->
               fetchLoop srv url init hdrs (attempt + 1) le
                 (after st [EvFetch (request_of (this st) url init hdrs);
                            EvSleep d]) =
               (final_result (this st)
                  (srv (fetch_count (trace st) + S k)%nat
                       (request_of (this st) url init hdrs)),
                after st (retry_rounds srv (request_of (this st) url init hdrs)
                            (fetch_count (trace st)) attempt (S k)))).
    { intros le d Hd. rewrite IH.
      - cbn [after this]. rewrite Hcount.
        rewrite after_after. cbn [retry_rounds app]. rewrite <- Hd.
        replace (fetch_count
                   (trace (after st
                             [EvFetch (request_of (this st) url init hdrs);
                              EvSleep d])))
          with (S (fetch_count (trace st)))
          by (cbn [after trace]; rewrite fetch_count_app; cbn; lia).
        reflexivity.
      - cbn [after this]. lia.
      - intros j Hj. cbn [after this]. rewrite Hcount.
        apply Hbefore. lia.
      - cbn [after this]. rewrite Hcount.
        destruct Hstop as [Hlast | Hno]; [left; lia | right; exact Hno]. }
    destruct (srv (fetch_count (trace st)) (request_of (this st) url init hdrs))
      as [resp | message] eqn:Hsrv.
    + apply retry_worthy_Resolved in Hfirst. destruct Hfirst as [Hok Hretry].
      rewrite (fetchLoop_retry _ _ _ _ _ _ _ resp Hlt Hsrv Hok Hretry).
      apply Hnext. reflexivity.
    + rewrite (fetchLoop_rejected_retry _ _ _ _ _ _ _ message Hlt Hsrv).
      apply Hnext. reflexivity.
Qed.


(** The run of [fetchWithRetry], outcome by outcome: when the first [k]
    fetches are rejected or answered with a retriable status, [k] is at
    most [maxRetries], and the next outcome is not retried or the attempts
    are used up, the call ends as that outcome says (an [ok] response is
    returned, another response is thrown through [throwForStatus], a
    rejection becomes the connection error), after [k + 1] fetches and the
    [k] sleeps that the retried outcomes ask for. *)
Theorem fetchWithRetry_outcome srv url init st (k : nat) :
  Z.of_nat k <= maxRetries (this st) ->
  let req := request_of (this st) url init (headers_of (this st) init) in
  let first := fetch_count (trace st) in
  (forall j, (j < k)%nat -> retry_worthy (srv (first + j)%nat req) = true) ->
  Z.of_nat k = maxRetries (this st) \/
  retry_worthy (srv (first + k)%nat req) = false ->
  fetchWithRetry srv url init st =
  (final_result (this st) (srv (first + k)%nat req),
   after st (retry_rounds srv req first 0 k)).
Proof.
  intros Hk req first Hbefore Hstop. rewrite fetchWithRetry_loop.
  apply fetchLoop_outcome; [lia | exact Hbefore | ].
  destruct Hstop as [H | H]; [left; lia | right; exact H].
Qed.

Definition rejected_then_limited : Server :=
  fun n _ =>
    match n with
    | O => Rejected "socket hang up"
    | _ => Resolved hinted
    end.

Lemma fetchWithRetry_outcome_witness :
  fetchWithRetry rejected_then_limited "https://api.langbly.com/x" get_init
    demo_state =
  (Throw (RateLimitError (JStr "Too Many Requests") (Some (Fin (3 # 2)))),
   after demo_state
     (let req :=
        request_of demo_client "https://api.langbly.com/x" get_init
          (headers_of demo_client get_init) in
      [EvFetch req; EvSleep (num 500); EvFetch req; EvSleep (num 1500);
       EvFetch req])).
Proof.
  apply (fetchWithRetry_outcome rejected_then_limited
           "https://api.langbly.com/x" get_init demo_state 2).
  - cbn. lia.
  - intros [ | [ | j]] Hj; [reflexivity | reflexivity | lia].
  - left. reflexivity.
Defined.

(* ===================================================================== *)
(** ** How long a call can sleep *)
(* ===================================================================== *)











Lemma fetch_count_retry_rounds srv req k :
  forall first attempt,
    fetch_count (retry_rounds srv req first attempt k) = S k.
Proof.
  induction k as [ | k IH]; intros first attempt; [reflexivity | ].
  cbn [retry_rounds].
  change (fetch_count (EvFetch req
                         :: EvSleep (delay_after (srv first req) attempt)
                         :: retry_rounds srv req (S first) (attempt + 1) k))
    with (S (fetch_count (retry_rounds srv req (S first) (attempt + 1) k))).
  now rewrite IH.
Qed.


(** With a negative [maxRetries] the loop is not entered. *)
Lemma fetchWithRetry_no_attempt srv url init st :
  maxRetries (this st) < 0 ->
  fetchWithRetry srv url init st =
  (Throw (LangblyError_default "Request failed"), st).
Proof.
  intros Hneg. rewrite fetchWithRetry_loop.
  now rewrite fetchLoop_exit by exact Hneg.
Qed.



(** With a negative [maxRetries] no public operation contacts the server:
    each throws [LangblyError("Request failed")], with status 0 and an
    empty code, and performs no effect. *)
Theorem negative_maxRetries_no_request srv st :
  maxRetries (this st) < 0 ->
  (forall input options,
      translate srv input options st =
      (Throw (LangblyError (JStr "Request failed") 0 (JStr "")), st)) /\
  (forall s,
      detect srv s st =
      (Throw (LangblyError (JStr "Request failed") 0 (JStr "")), st)) /\
  (forall target,
      languages srv target st =
      (Throw (LangblyError (JStr "Request failed") 0 (JStr "")), st)).
Proof.
  intros Hneg.
  assert (Hpost : forall path b,
             postWithRetry srv path b st =
             (Throw (LangblyError_default "Request failed"), st)).
  { intros path b. unfold postWithRetry. unfold bind at 1.
    unfold this_field. cbv beta iota. unfold bind.
    now rewrite fetchWithRetry_no_attempt by exact Hneg. }
  split; [ | split].
  - intros input options. unfold translate. unfold bind at 1.
    now rewrite Hpost.
  - intros s. unfold detect. unfold bind at 1. now rewrite Hpost.
  - intros target. unfold languages. unfold bind at 1.
    unfold this_field. cbv beta iota. unfold bind at 1.
    now rewrite fetchWithRetry_no_attempt by exact Hneg.
Qed.

Definition never_retrying : State :=
  {| this := {| apiKey := "key"; baseUrl := "https://api.langbly.com";
                timeout := 30000; maxRetries := -1 |};
     trace := [] |}.

Lemma negative_maxRetries_no_request_witness :
  detect (fun _ _ => Resolved translated) "Bonjour" never_retrying =
  (Throw (LangblyError (JStr "Request failed") 0 (JStr "")), never_retrying).
Proof.
  apply (negative_maxRetries_no_request (fun _ _ => Resolved translated)
           never_retrying).
  cbn. lia.
Defined.

(** The backoff delay never falls and stays between 500 and 10000
    milliseconds, from attempt 0 on. *)
Theorem backoffDelay_monotone a b :
  0 <= a -> a <= b ->
  exists x y,
    backoffDelay a = num x /\ backoffDelay b = num y /\
    500 <= x /\ x <= y /\ y <= 10000.
Proof.
  intros Ha Hab.
  exists (Z.min (500 * 2 ^ a) 10000), (Z.min (500 * 2 ^ b) 10000).
  split; [apply backoffDelay_nonneg; lia | ].
  split; [apply backoffDelay_nonneg; lia | ].
  assert (H1 : 1 <= 2 ^ a).
  { change 1 with (2 ^ 0). apply Z.pow_le_mono_r; lia. }
  assert (H2 : 2 ^ a <= 2 ^ b) by (apply Z.pow_le_mono_r; lia).
  lia.
Qed.

Lemma backoffDelay_monotone_witness :
  exists x y,
    backoffDelay 1 = num x /\ backoffDelay 7 = num y /\
    500 <= x /\ x <= y /\ y <= 10000.
Proof. apply (backoffDelay_monotone 1 7); lia. Defined.

(* ===================================================================== *)
(** ** The constructor on a usable key *)
(* ===================================================================== *)

Lemma strip_trailing_slash_app b : strip_trailing_slash (b ++ "/") = b.
Proof.
  induction b as [ | c r IH]; [reflexivity | ].
  cbn [append strip_trailing_slash].
  destruct (r ++ "/")%string as [ | c' r'] eqn:Hr.
  - destruct r; discriminate Hr.
  - now rewrite IH.
Qed.

Lemma strip_trailing_slash_none s :
  (forall b, s <> (b ++ "/")%string) -> strip_trailing_slash s = s.
Proof.
  induction s as [ | c r IH]; intros Hno; [reflexivity | ].
  cbn [strip_trailing_slash]. destruct r as [ | c' r'].
  - destruct (Ascii.eqb_spec c "/") as [-> | Hne]; [ | reflexivity].
    exfalso. apply (Hno ""%string). reflexivity.
  - f_equal. apply IH. intros b Hb.
    apply (Hno (String c b)). cbn [append]. now rewrite Hb.
Qed.

(** With an [apiKey] that is not empty the constructor succeeds: it keeps
    the key, takes 30000 and 2 for a missing [timeout] and [maxRetries], and
    stores the base URL without its last character when that is a slash
    (one slash only), unchanged otherwise. *)
Theorem constructor_accepts options key :
  LangblyOptions.apiKey options = Some key -> key <> "" ->
  exists c,
    constructor options = Ok c /\
    apiKey c = key /\
    timeout c = or_default (LangblyOptions.timeout options) 30000 /\
    maxRetries c = or_default (LangblyOptions.maxRetries options) 2 /\
    (LangblyOptions.baseUrl options = None ->
     baseUrl c = "https://api.langbly.com") /\
    (forall b, LangblyOptions.baseUrl options = Some (b ++ "/")%string ->
               baseUrl c = b) /\
    (forall s, LangblyOptions.baseUrl options = Some s ->
               (forall b, s <> (b ++ "/")%string) -> baseUrl c = s).
Proof.
  intros Hkey Hne. unfold constructor.
  rewrite Hkey, (truthy_nonempty key Hne). cbn [negb or_default].
  eexists. split; [reflexivity | ]. cbn [apiKey timeout maxRetries baseUrl].
  repeat split.
  - intros Hnone. rewrite Hnone. reflexivity.
  - intros b Hb. rewrite Hb. cbn [or_default]. apply strip_trailing_slash_app.
  - intros s Hs Hno. rewrite Hs. cbn [or_default].
    now apply strip_trailing_slash_none.
Qed.

Lemma constructor_accepts_witness :
  exists c,
    constructor {| LangblyOptions.apiKey := Some "key";
                   LangblyOptions.baseUrl := Some "https://example.test//";
                   LangblyOptions.timeout := Some 500;
                   LangblyOptions.maxRetries := None |} = Ok c /\
    baseUrl c = "https://example.test/" /\ timeout c = 500 /\
    maxRetries c = 2.
Proof.
  destruct (constructor_accepts
              {| LangblyOptions.apiKey := Some "key";
                 LangblyOptions.baseUrl := Some "https://example.test//";
                 LangblyOptions.timeout := Some 500;
                 LangblyOptions.maxRetries := None |} "key")
    as [c [Hc [_ [Ht [Hm [_ [Hb _]]]]]]].
  - reflexivity.
  - discriminate.
  - exists c. split; [exact Hc | ].
    split; [apply (Hb "https://example.test/"%string); reflexivity | ].
    split; [exact Ht | exact Hm].
Defined.

(* ===================================================================== *)
(** ** What every thrown status error carries *)
(* ===================================================================== *)

(** The [message] field of an error whose constructor was given a string,
    which [Error] stores as it is.  For any other argument [Error] stores
    its string form, which is not computed here, and the errors of the
    runtime have a text of their own: both are [None]. *)
Definition exn_message (e : exn) : option string :=
  match e with
  | Error_ m => Some m
  | LangblyError (JStr m) _ _ | RateLimitError (JStr m) _
  | AuthenticationError (JStr m) => Some m
  | _ => None
  end.

(** Whatever class [throwForStatus] picks, the error has the status of the
    response as its [status]; its [message] is the [error.message] of the
    body when the body parses and that is a string, and the status text of
    the response when the body does not parse or has no [error.message]
    (missing or [null]). *)
Theorem thrown_error_carries_status resp st :
  exists e,
    throwForStatus resp st = (Throw e, st) /\
    exn_status e = Some (status resp) /\
    (json resp = None -> exn_message e = Some (statusText resp)) /\
    (forall err,
        json resp = Some err ->
        is_nullish (opt_prop "message" (opt_prop "error" err)) = true ->
        exn_message e = Some (statusText resp)) /\
    (forall err s,
        json resp = Some err ->
        opt_prop "message" (opt_prop "error" err) = JStr s ->
        exn_message e = Some s).
Proof.
  exists (statusError resp). split; [apply throwForStatus_throws | ].
  unfold statusError, error_details.
  assert (Hcases :
    forall s code,
      exn_message (if status resp =? 401 then AuthenticationError (JStr s)
                   else if status resp =? 429
                        then RateLimitError (JStr s) (parseRetryAfter resp)
                        else LangblyError (JStr s) (status resp) code)
      = Some s).
  { intros s code.
    destruct (status resp =? 401); [reflexivity | ].
    destruct (status resp =? 429); reflexivity. }
  assert (Hstatus :
    forall message code,
      exn_status (if status resp =? 401 then AuthenticationError message
                  else if status resp =? 429
                       then RateLimitError message (parseRetryAfter resp)
                       else LangblyError message (status resp) code)
      = Some (status resp)).
  { intros message code.
    destruct (Z.eqb_spec (status resp) 401) as [H401 | _].
    - cbn. now rewrite H401.
    - destruct (Z.eqb_spec (status resp) 429) as [H429 | _];
        [cbn; now rewrite H429 | reflexivity]. }
  destruct (json resp) as [err | ].
  - split; [apply Hstatus | ]. split; [discriminate | ]. split.
    + intros err' Herr Hnull. inversion Herr. subst err'.
      replace (nullish_or (opt_prop "message" (opt_prop "error" err))
                 (JStr (statusText resp)))
        with (JStr (statusText resp))
        by (unfold nullish_or; now rewrite Hnull).
      apply Hcases.
    + intros err' s Herr Hs. inversion Herr. subst err'.
      rewrite Hs. apply Hcases.
  - split; [apply Hstatus | ]. split; [intros _; apply Hcases | ].
    split; discriminate.
Qed.

(* ===================================================================== *)
(** ** Reading the answer *)
(* ===================================================================== *)

Definition not_nullish (v : jsval) : bool := negb (is_nullish v).

Lemma own_prop_not_nullish k v :
  is_nullish (own_prop k v) = false -> is_nullish v = false.
Proof. destruct v; cbn; congruence. Qed.

Lemma own_index0_not_nullish v :
  is_nullish (own_index0 v) = false -> is_nullish v = false.
Proof. destruct v; cbn; congruence. Qed.

Lemma prop_run k v st :
  prop k v st =
  if is_nullish v then (Throw TypeError, st) else (Ok (own_prop k v), st).
Proof. unfold prop. destruct (is_nullish v); reflexivity. Qed.

Lemma index0_run v st :
  index0 v st =
  if is_nullish v then (Throw TypeError, st) else (Ok (own_index0 v), st).
Proof. unfold index0. destruct (is_nullish v); reflexivity. Qed.

Lemma to_translation_run options item st :
  to_translation options item st =
  if is_nullish item then (Throw TypeError, st)
  else (Ok (translation_record options item), st).
Proof.
  unfold to_translation, bind.
  destruct (is_nullish item) eqn:Hitem;
    repeat (rewrite prop_run, Hitem; cbv beta iota); reflexivity.
Qed.

(** [map] with a callback that throws on a [null] item: all or nothing. *)
Lemma mapM_to_translation_run options items st :
  mapM (to_translation options) items st =
  if forallb not_nullish items
  then (Ok (map (translation_record options) items), st)
  else (Throw TypeError, st).
Proof.
  induction items as [ | item r IH]; [reflexivity | ].
  cbn [mapM forallb map]. unfold bind at 1. rewrite to_translation_run.
  unfold not_nullish at 1. destruct (is_nullish item); cbn [negb andb];
    [reflexivity | ].
  unfold bind. rewrite IH.
  destruct (forallb not_nullish r); reflexivity.
Qed.

Lemma bind_assoc {A B C} (m : M A) (k1 : A -> M B) (k2 : B -> M C) st :
  bind (bind m k1) k2 st = bind m (fun a => bind (k1 a) k2) st.
Proof. unfold bind. destruct (m st) as [[a | e] st1]; reflexivity. Qed.

Lemma bind_this_field {A B} (f : Langbly -> A) (k : A -> M B) st :
  bind (this_field f) k st = k (f (this st)) st.
Proof. reflexivity. Qed.

Lemma bind_Ok {A B} (m : M A) (k : A -> M B) st a st1 :
  m st = (Ok a, st1) -> bind m k st = k a st1.
Proof. intros H. unfold bind. now rewrite H. Qed.

Lemma bind_Throw {A B} (m : M A) (k : A -> M B) st e st1 :
  m st = (Throw e, st1) -> bind m k st = (Throw e, st1).
Proof. intros H. unfold bind. now rewrite H. Qed.

(** [translate] is its one [fetchWithRetry] followed by the reading of the
    response. *)
Lemma translate_bind srv input options st :
  translate srv input options st =
  bind (fetchWithRetry srv
          (baseUrl (this st) ++ "/language/translate/v2")%string
          (post_init (translate_body (texts_of input) options)))
       (fun resp =>
          data <- resp_json resp ;;
          d <- prop "data" data ;;
          ts <- prop "translations" d ;;
          translations <- array_map (to_translation options) ts ;;
          ret (match input with
               | Batch _ => Many translations
               | Single _ => One (hd_error translations)
               end)) st.
Proof.
  unfold translate, postWithRetry.
  rewrite bind_assoc, bind_this_field, bind_assoc. reflexivity.
Qed.

(** The result of [translate] once [fetchWithRetry] has returned a
    response: a body that is not JSON is a [SyntaxError]; a body whose
    [data.translations] is an array without [null] items gives one
    translation per item, in order (all of them for an array of texts, the
    first or [undefined] for a string); any other body is a [TypeError].
    None of these failures is retried: the state is the one
    [fetchWithRetry] left. *)
Theorem translate_reads_response srv input options st resp st1 :
  fetchWithRetry srv (baseUrl (this st) ++ "/language/translate/v2")%string
    (post_init (translate_body (texts_of input) options)) st
  = (Ok resp, st1) ->
  translate srv input options st =
  (match json resp with
   | None => Throw SyntaxError
   | Some data =>
       match own_prop "translations" (own_prop "data" data) with
       | JArr items =>
           if forallb not_nullish items then
             let translations := map (translation_record options) items in
             Ok (match input with
                 | Batch _ => Many translations
                 | Single _ => One (hd_error translations)
                 end)
           else Throw TypeError
       | _ => Throw TypeError
       end
   end, st1).
Proof.
  intros Hfetch. rewrite translate_bind. rewrite (bind_Ok _ _ _ _ _ Hfetch).
  unfold resp_json. destruct (json resp) as [data | ]; [ | reflexivity].
  rewrite (bind_Ok _ _ _ data st1 eq_refl).
  destruct (is_nullish data) eqn:Hdata.
  { rewrite (bind_Throw _ _ _ TypeError st1)
      by (rewrite prop_run, Hdata; reflexivity).
    destruct data; cbn in Hdata; try discriminate Hdata; reflexivity. }
  rewrite (bind_Ok _ _ _ (own_prop "data" data) st1)
    by (rewrite prop_run, Hdata; reflexivity).
  destruct (is_nullish (own_prop "data" data)) eqn:Hd.
  { rewrite (bind_Throw _ _ _ TypeError st1)
      by (rewrite prop_run, Hd; reflexivity).
    destruct (own_prop "data" data); cbn in Hd; try discriminate Hd;
      reflexivity. }
  rewrite (bind_Ok _ _ _ (own_prop "translations" (own_prop "data" data)) st1)
    by (rewrite prop_run, Hd; reflexivity).
  destruct (own_prop "translations" (own_prop "data" data))
    as [ | | | | | items | ]; cbn [array_map]; try reflexivity.
  unfold bind. rewrite mapM_to_translation_run.
  destruct (forallb not_nullish items); reflexivity.
Qed.

Definition no_translations : Response :=
  {| ok := true; status := 200; statusText := "OK"; retry_after := None;
     json := Some (JObj [("data", JObj [("translations", JArr [])])]) |}.

Lemma translate_reads_response_witness :
  translate (fun _ _ => Resolved no_translations) (Single "Hello") to_german
    demo_state =
  (Ok (One None),
   after demo_state
     [EvFetch (translate_request demo_client ["Hello"] to_german)]).
Proof.
  apply (translate_reads_response (fun _ _ => Resolved no_translations)
           (Single "Hello") to_german demo_state no_translations).
  vm_compute. reflexivity.
Defined.

(** A response that [fetchWithRetry] returns is [ok]. *)
Lemma fetchWithRetry_returns_ok srv url init st :
  match fst (fetchWithRetry srv url init st) with
  | Ok resp => ok resp = true
  | Throw _ => True
  end /\
  exists tr,
    snd (fetchWithRetry srv url init st) = after st tr /\
    forall r, In (EvFetch r) tr ->
              r = request_of (this st) url init (headers_of (this st) init).
Proof.
  rewrite fetchWithRetry_loop.
  destruct (fetchLoop_run srv url init (headers_of (this st) init) _ 0 None st
              eq_refl) as [tr [Hst Hreq _ _ _ Hres]].
  split.
  - destruct (fst (fetchLoop srv url init (headers_of (this st) init) 0 None st));
      [apply Hres | exact I].
  - exists tr. split; [exact Hst | exact Hreq].
Qed.

Lemma mapM_run {B} (f : jsval -> M B) (g : jsval -> B) :
  (forall item st,
      f item st = if is_nullish item then (Throw TypeError, st)
                  else (Ok (g item), st)) ->
  forall items st,
    mapM f items st =
    if forallb not_nullish items then (Ok (map g items), st)
    else (Throw TypeError, st).
Proof.
  intros Hf. induction items as [ | item r IH]; intros st; [reflexivity | ].
  cbn [mapM forallb map]. unfold bind at 1. rewrite Hf.
  unfold not_nullish at 1. destruct (is_nullish item); cbn [negb andb];
    [reflexivity | ].
  unfold bind. rewrite IH.
  destruct (forallb not_nullish r); reflexivity.
Qed.

(** The request that [detect] sends. *)
Definition detect_init (s : string) : RequestInit :=
  post_init (JObj [("q", JStr s)]).

Definition detect_url (c : Langbly) : string :=
  (baseUrl c ++ "/language/translate/v2/detect")%string.

Lemma detect_bind srv s st :
  detect srv s st =
  bind (fetchWithRetry srv (detect_url (this st)) (detect_init s))
       (fun resp =>
          data <- resp_json resp ;;
          d <- prop "data" data ;;
          ds <- prop "detections" d ;;
          d0 <- index0 ds ;;
          det <- index0 d0 ;;
          lang <- prop "language" det ;;
          conf <- prop "confidence" det ;;
          ret {| language := lang;
                 confidence := nullish_or conf (JNum (num 0)) |}) st.
Proof.
  unfold detect, postWithRetry.
  rewrite bind_assoc, bind_this_field, bind_assoc. reflexivity.
Qed.

(** The detection that [detect] reads: [data.detections[0][0]]. *)
Definition first_detection (data : jsval) : jsval :=
  own_index0 (own_index0 (own_prop "detections" (own_prop "data" data))).

Ltac nullish_step v H :=
  destruct (is_nullish v) eqn:H;
  [ rewrite (bind_Throw _ _ _ TypeError _)
      by (rewrite ?prop_run, ?index0_run, H; reflexivity)
  | erewrite bind_Ok
      by (rewrite ?prop_run, ?index0_run, H; reflexivity) ].

(** The reading of a parsed body by [detect]. *)
Lemma detection_of_body data st1 :
  (d <- prop "data" data ;;
   ds <- prop "detections" d ;;
   d0 <- index0 ds ;;
   det <- index0 d0 ;;
   lang <- prop "language" det ;;
   conf <- prop "confidence" det ;;
   ret {| language := lang;
          confidence := nullish_or conf (JNum (num 0)) |}) st1 =
  (if is_nullish (first_detection data) then Throw TypeError
   else Ok {| language := own_prop "language" (first_detection data);
              confidence := nullish_or
                              (own_prop "confidence" (first_detection data))
                              (JNum (num 0)) |}, st1).
Proof.
  unfold first_detection.
  nullish_step data Hdata.
  { destruct data; cbn in Hdata; try discriminate Hdata; reflexivity. }
  nullish_step (own_prop "data" data) Hd.
  { destruct (own_prop "data" data); cbn in Hd; try discriminate Hd;
      reflexivity. }
  nullish_step (own_prop "detections" (own_prop "data" data)) Hds.
  { destruct (own_prop "detections" (own_prop "data" data));
      cbn in Hds; try discriminate Hds; reflexivity. }
  nullish_step (own_index0 (own_prop "detections" (own_prop "data" data))) Hd0.
  { destruct (own_index0 (own_prop "detections" (own_prop "data" data)));
      cbn in Hd0; try discriminate Hd0; reflexivity. }
  set (det := own_index0
                (own_index0 (own_prop "detections" (own_prop "data" data)))).
  nullish_step det Hdet; [reflexivity | ].
  rewrite (bind_Ok _ _ _ (own_prop "confidence" det) st1)
    by (rewrite prop_run, Hdet; reflexivity).
  reflexivity.
Qed.

(** The result of [detect] once [fetchWithRetry] has returned a response: a
    body that is not JSON is a [SyntaxError]; when [data.detections[0][0]]
    is missing or [null] at any level (an empty list of detections, say)
    the call throws a [TypeError]; otherwise the detection has the
    [language] the server sent and its [confidence], 0 when that is missing
    or [null].  Nothing is retried. *)
Theorem detect_reads_response srv s st resp st1 :
  fetchWithRetry srv (detect_url (this st)) (detect_init s) st
  = (Ok resp, st1) ->
  detect srv s st =
  (match json resp with
   | None => Throw SyntaxError
   | Some data =>
       let det := first_detection data in
       if is_nullish det then Throw TypeError
       else Ok {| language := own_prop "language" det;
                  confidence := nullish_or (own_prop "confidence" det)
                                           (JNum (num 0)) |}
   end, st1).
Proof.
  intros Hfetch. rewrite detect_bind. rewrite (bind_Ok _ _ _ _ _ Hfetch).
  unfold resp_json. destruct (json resp) as [data | ]; [ | reflexivity].
  rewrite (bind_Ok _ _ _ data st1 eq_refl).
  cbv zeta. rewrite detection_of_body.
  destruct (is_nullish (first_detection data)); reflexivity.
Qed.

Definition detected : Response :=
  {| ok := true; status := 200; statusText := "OK"; retry_after := None;
     json :=
       Some (JObj
         [("data",
           JObj [("detections",
                  JArr [JArr [JObj [("language", JStr "fr")]]])])]) |}.

Lemma detect_reads_response_witness :
  detect (fun _ _ => Resolved detected) "Bonjour" demo_state =
  (Ok {| language := JStr "fr"; confidence := JNum (num 0) |},
   after demo_state
     [EvFetch (request_of demo_client (detect_url demo_client)
                 (detect_init "Bonjour")
                 (headers_of demo_client (detect_init "Bonjour")))]).
Proof.
  apply (detect_reads_response (fun _ _ => Resolved detected) "Bonjour"
           demo_state detected).
  vm_compute. reflexivity.
Defined.

(** A detection that [detect] returns never has an [undefined] or [null]
    confidence, and it was read from an answer that [fetchWithRetry]
    returned. *)
Theorem detect_confidence srv s st d :
  fst (detect srv s st) = Ok d ->
  is_nullish (confidence d) = false /\
  exists resp data,
    fst (fetchWithRetry srv (detect_url (this st)) (detect_init s) st)
      = Ok resp /\
    ok resp = true /\
    json resp = Some data /\
    is_nullish (first_detection data) = false /\
    language d = own_prop "language" (first_detection data) /\
    (is_nullish (own_prop "confidence" (first_detection data)) = false ->
     confidence d = own_prop "confidence" (first_detection data)) /\
    (is_nullish (own_prop "confidence" (first_detection data)) = true ->
     confidence d = JNum (num 0)).
Proof.
  intros Hd.
  destruct (fetchWithRetry srv (detect_url (this st)) (detect_init s) st)
    as [[resp | e] st1] eqn:Hfetch.
  - assert (Hok : ok resp = true).
    { destruct (fetchWithRetry_returns_ok srv (detect_url (this st))
                  (detect_init s) st) as [Hres _].
      rewrite Hfetch in Hres. exact Hres. }
    rewrite detect_bind, (bind_Ok _ _ _ _ _ Hfetch) in Hd.
    unfold resp_json in Hd.
    destruct (json resp) as [data | ] eqn:Hjson; [ | discriminate Hd].
    rewrite (bind_Ok _ _ _ data st1 eq_refl), detection_of_body in Hd.
    cbn [fst] in Hd.
    destruct (is_nullish (first_detection data)) eqn:Hdet;
      [discriminate Hd | ].
    inversion Hd. cbn [confidence language].
    split.
    + unfold nullish_or.
      destruct (is_nullish (own_prop "confidence" (first_detection data)))
        eqn:Hc; [reflexivity | exact Hc].
    + exists resp, data. repeat split; try assumption; try reflexivity.
      * intros Hc. unfold nullish_or. now rewrite Hc.
      * intros Hc. unfold nullish_or. now rewrite Hc.
  - rewrite detect_bind in Hd. rewrite (bind_Throw _ _ _ _ _ Hfetch) in Hd.
    discriminate Hd.
Qed.

(* ===================================================================== *)
(** ** [languages]: the query and the list *)
(* ===================================================================== *)

(** The URL that [languages] asks for. *)
Definition languages_url (c : Langbly) (target : option string) : string :=
  (baseUrl c ++ "/language/translate/v2/languages"
   ++ (if truthy target
       then "?target=" ++ FormUrlencoded.encode (or_default target "")
       else ""))%string.

(** The record that the callback of [languages] builds from one item. *)
Definition language_record (lang : jsval) : Language :=
  {| code := own_prop "language" lang; name := own_prop "name" lang |}.

Lemma languages_bind srv target st :
  languages srv target st =
  bind (fetchWithRetry srv (languages_url (this st) target) get_init)
       (fun resp =>
          data <- resp_json resp ;;
          d <- prop "data" data ;;
          ls <- prop "languages" d ;;
          array_map (fun lang =>
                       c <- prop "language" lang ;;
                       n <- prop "name" lang ;;
                       ret {| code := c; name := n |}) ls) st.
Proof.
  unfold languages. rewrite bind_this_field. unfold languages_url.
  destruct (truthy target); reflexivity.
Qed.

Lemma language_callback_run lang st :
  (c <- prop "language" lang ;;
   n <- prop "name" lang ;;
   ret {| code := c; name := n |}) st =
  if is_nullish lang then (Throw TypeError, st)
  else (Ok (language_record lang), st).
Proof.
  unfold bind.
  destruct (is_nullish lang) eqn:Hlang;
    repeat (rewrite prop_run, Hlang; cbv beta iota); reflexivity.
Qed.

(** The result of [languages] once [fetchWithRetry] has returned a
    response: a body that is not JSON is a [SyntaxError]; a body whose
    [data.languages] is an array without [null] items gives one language
    per item, in the order of the server, with its [language] as [code] and
    its [name]; any other body is a [TypeError].  Nothing is retried. *)
Theorem languages_reads_response srv target st resp st1 :
  fetchWithRetry srv (languages_url (this st) target) get_init st
  = (Ok resp, st1) ->
  languages srv target st =
  (match json resp with
   | None => Throw SyntaxError
   | Some data =>
       match own_prop "languages" (own_prop "data" data) with
       | JArr items =>
           if forallb not_nullish items
           then Ok (map language_record items)
           else Throw TypeError
       | _ => Throw TypeError
       end
   end, st1).
Proof.
  intros Hfetch. rewrite languages_bind. rewrite (bind_Ok _ _ _ _ _ Hfetch).
  unfold resp_json. destruct (json resp) as [data | ]; [ | reflexivity].
  rewrite (bind_Ok _ _ _ data st1 eq_refl).
  nullish_step data Hdata.
  { destruct data; cbn in Hdata; try discriminate Hdata; reflexivity. }
  nullish_step (own_prop "data" data) Hd.
  { destruct (own_prop "data" data); cbn in Hd; try discriminate Hd;
      reflexivity. }
  destruct (own_prop "languages" (own_prop "data" data))
    as [ | | | | | items | ]; cbn [array_map]; try reflexivity.
  rewrite (mapM_run _ language_record language_callback_run).
  destruct (forallb not_nullish items); reflexivity.
Qed.

Definition listed : Response :=
  {| ok := true; status := 200; statusText := "OK"; retry_after := None;
     json :=
       Some (JObj
         [("data",
           JObj [("languages",
                  JArr [JObj [("language", JStr "nl");
                              ("name", JStr "Dutch")];
                        JObj [("language", JStr "fr")]])])]) |}.

Lemma languages_reads_response_witness :
  fst (languages (fun _ _ => Resolved listed) (Some "en") demo_state) =
  Ok [ {| code := JStr "nl"; name := JStr "Dutch" |};
       {| code := JStr "fr"; name := Undefined |} ].
Proof.
  rewrite (languages_reads_response (fun _ _ => Resolved listed) (Some "en")
             demo_state listed
             (after demo_state
                [EvFetch (request_of demo_client
                            (languages_url demo_client (Some "en")) get_init
                            (headers_of demo_client get_init))])).
  - reflexivity.
  - vm_compute. reflexivity.
Defined.

(** The characters that the encoding of a query value is made of. *)
Definition unreserved (c : ascii) : bool :=
  (FormUrlencoded.keep c || Ascii.eqb c "+" || Ascii.eqb c "%")%bool.

Lemma hex_digit_unreserved d :
  (d < 16)%nat -> unreserved (FormUrlencoded.hex_digit d) = true.
Proof.
  intros Hd.
  do 16 (destruct d as [ | d]; [reflexivity | ]). lia.
Qed.

Lemma nat_of_ascii_bound c : (nat_of_ascii c < 256)%nat.
Proof. destruct c as [[] [] [] [] [] [] [] []]; cbn; lia. Qed.

Lemma encode_unreserved s :
  forallb unreserved (list_ascii_of_string (FormUrlencoded.encode s)) = true.
Proof.
  induction s as [ | c r IH]; [reflexivity | ].
  cbn [FormUrlencoded.encode].
  destruct (FormUrlencoded.keep c) eqn:Hkeep.
  - cbn [list_ascii_of_string forallb]. unfold unreserved at 1.
    rewrite Hkeep, IH. reflexivity.
  - destruct (Nat.eqb (nat_of_ascii c) 32).
    + cbn [list_ascii_of_string forallb]. rewrite IH. reflexivity.
    + cbn [list_ascii_of_string forallb]. rewrite IH.
      pose proof (nat_of_ascii_bound c) as Hb.
      rewrite !hex_digit_unreserved; [reflexivity | | ].
      * apply Nat.mod_upper_bound. lia.
      * apply Nat.Div0.div_lt_upper_bound. lia.
Qed.

(** The URL of [languages]: without a target, or with an empty one, it has
    no query; with a target it ends in [?target=] and the encoded target,
    in which none of [&], [=], [#], [?], [/] and the space occurs, whatever
    the target contains. *)
Theorem languages_url_query c target :
  (truthy target = false ->
   languages_url c target
   = (baseUrl c ++ "/language/translate/v2/languages")%string) /\
  (forall t, target = Some t -> t <> "" ->
     exists q,
       languages_url c target
       = (baseUrl c ++ "/language/translate/v2/languages?target=" ++ q)%string
       /\ q = FormUrlencoded.encode t
       /\ forall ch, In ch (list_ascii_of_string q) ->
            ~ In ch ["&"; "="; "#"; "?"; "/"; " "]%char).
Proof.
  split.
  - intros Hfalse. unfold languages_url. rewrite Hfalse. reflexivity.
  - intros t Ht Hne. exists (FormUrlencoded.encode t).
    split; [ | split; [reflexivity | ]].
    + unfold languages_url. rewrite Ht, (truthy_nonempty t Hne). reflexivity.
    + intros ch Hin Hbad.
      pose proof (encode_unreserved t) as Hall.
      rewrite forallb_forall in Hall. specialize (Hall ch Hin).
      cbn in Hbad.
      destruct Hbad as [H | [H | [H | [H | [H | [H | []]]]]]]; subst ch;
        discriminate Hall.
Qed.

Lemma languages_url_query_witness :
  exists q,
    languages_url demo_client (Some "zh TW&x=1")
    = ("https://api.langbly.com/language/translate/v2/languages?target="
       ++ q)%string
    /\ q = "zh+TW%26x%3D1".
Proof.
  destruct (proj2 (languages_url_query demo_client (Some "zh TW&x=1"))
              "zh TW&x=1" eq_refl)
    as [q [Hurl [Hq _]]].
  - discriminate.
  - exists q. split; [exact Hurl | ]. rewrite Hq. reflexivity.
Defined.

(* ===================================================================== *)
(** ** What every request carries *)
(* ===================================================================== *)

(** A request that bears the key, the user agent and the timeout of the
    client, to a URL under its base URL. *)
Definition signed_by (c : Langbly) (r : Request) : Prop :=
  assoc "Authorization" (headers r) = Some ("Bearer " ++ apiKey c)%string /\
  assoc "User-Agent" (headers r) = Some "langbly-js/0.1.0" /\
  signal r = timeout c /\
  prefix (baseUrl c) (url r) = true.

Lemma prefix_app s t : prefix s (s ++ t) = true.
Proof.
  induction s as [ | c r IH]; [destruct t; reflexivity | ].
  cbn. destruct (ascii_dec c c) as [_ | Hne]; [exact IH | contradiction].
Qed.

Lemma quiet_index0 v : quiet (index0 v).
Proof.
  unfold index0. destruct (is_nullish v); [apply quiet_throw | apply quiet_ret].
Qed.

Lemma detect_effects srv s st :
  snd (detect srv s st) =
  snd (fetchWithRetry srv (detect_url (this st)) (detect_init s) st).
Proof.
  rewrite detect_bind. apply snd_bind_quiet. intros resp.
  apply quiet_bind; [apply quiet_resp_json | intro].
  repeat (apply quiet_bind; [apply quiet_prop | intro]).
  repeat (apply quiet_bind; [apply quiet_index0 | intro]).
  repeat (apply quiet_bind; [apply quiet_prop | intro]).
  apply quiet_ret.
Qed.

Lemma languages_effects srv target st :
  snd (languages srv target st) =
  snd (fetchWithRetry srv (languages_url (this st) target) get_init st).
Proof.
  rewrite languages_bind. apply snd_bind_quiet. intros resp.
  apply quiet_bind; [apply quiet_resp_json | intro].
  repeat (apply quiet_bind; [apply quiet_prop | intro]).
  apply quiet_array_map. intros lang.
  repeat (apply quiet_bind; [apply quiet_prop | intro]). apply quiet_ret.
Qed.

(** Every request of [translate], [detect] and [languages], first attempt
    or retry, bears [Authorization: Bearer <apiKey>], the user agent
    [langbly-js/0.1.0] and the timeout of the client, and goes to a path
    under the base URL: a POST of JSON for [translate] and [detect] (with
    [{q: text}] as the body of [detect]), a GET without body or content
    type for [languages]. *)
Theorem operations_requests srv st :
  (forall input options,
      exists tr,
        snd (translate srv input options st) = after st tr /\
        forall r, In (EvFetch r) tr ->
          signed_by (this st) r /\ method r = "POST" /\
          assoc "Content-Type" (headers r) = Some "application/json" /\
          url r = (baseUrl (this st) ++ "/language/translate/v2")%string /\
          body r = Some (translate_body (texts_of input) options)) /\
  (forall s,
      exists tr,
        snd (detect srv s st) = after st tr /\
        forall r, In (EvFetch r) tr ->
          signed_by (this st) r /\ method r = "POST" /\
          assoc "Content-Type" (headers r) = Some "application/json" /\
          url r = (baseUrl (this st) ++ "/language/translate/v2/detect")%string /\
          body r = Some (JObj [("q", JStr s)])) /\
  (forall target,
      exists tr,
        snd (languages srv target st) = after st tr /\
        forall r, In (EvFetch r) tr ->
          signed_by (this st) r /\ method r = "GET" /\
          assoc "Content-Type" (headers r) = None /\
          url r = languages_url (this st) target /\
          body r = None).
Proof.
  split; [ | split].
  - intros input options. rewrite translate_effects.
    destruct (fetchWithRetry_returns_ok srv
                (baseUrl (this st) ++ "/language/translate/v2")%string
                (post_init (translate_body (texts_of input) options)) st)
      as [_ [tr [Hst Hreq]]].
    exists tr. split; [exact Hst | ].
    intros r Hin. rewrite (Hreq r Hin).
    repeat split; try reflexivity. apply prefix_app.
  - intros s. rewrite detect_effects.
    destruct (fetchWithRetry_returns_ok srv (detect_url (this st))
                (detect_init s) st) as [_ [tr [Hst Hreq]]].
    exists tr. split; [exact Hst | ].
    intros r Hin. rewrite (Hreq r Hin).
    repeat split; try reflexivity. apply prefix_app.
  - intros target. rewrite languages_effects.
    destruct (fetchWithRetry_returns_ok srv (languages_url (this st) target)
                get_init st) as [_ [tr [Hst Hreq]]].
    exists tr. split; [exact Hst | ].
    intros r Hin. rewrite (Hreq r Hin).
    repeat split; try reflexivity. apply prefix_app.
Qed.

(** The body of a translation request: [q] and [target] always; [source]
    and [format] exactly when the caller gave a string that is not empty
    (an empty [source] or [format] is left out, like a missing one). *)
Lemma translate_body_fields q options :
  own_prop "q" (translate_body q options) = JArr (map JStr q) /\
  own_prop "target" (translate_body q options)
    = JStr (TranslateOptions.target options) /\
  own_prop "source" (translate_body q options)
    = (if truthy (TranslateOptions.source options)
       then opt_str (TranslateOptions.source options) else Undefined) /\
  own_prop "format" (translate_body q options)
    = (if truthy (TranslateOptions.format options)
       then opt_str (TranslateOptions.format options) else Undefined) /\
  (forall s, TranslateOptions.source options = Some s -> s <> "" ->
             own_prop "source" (translate_body q options) = JStr s) /\
  (TranslateOptions.source options = None \/
   TranslateOptions.source options = Some "" ->
   own_prop "source" (translate_body q options) = Undefined).
Proof.
  assert (Hsrc : own_prop "source" (translate_body q options)
                 = (if truthy (TranslateOptions.source options)
                    then opt_str (TranslateOptions.source options)
                    else Undefined)).
  { unfold translate_body.
    destruct (truthy (TranslateOptions.source options));
      destruct (truthy (TranslateOptions.format options)); reflexivity. }
  split; [reflexivity | ]. split; [reflexivity | ].
  split; [exact Hsrc | ]. split.
  - unfold translate_body.
    destruct (truthy (TranslateOptions.source options));
      destruct (truthy (TranslateOptions.format options)); reflexivity.
  - split.
    + intros s Hs Hne. rewrite Hsrc, Hs, (truthy_nonempty s Hne). reflexivity.
    + intros [H | H]; rewrite Hsrc, H; reflexivity.
Qed.

(* ===================================================================== *)
(** ** The client before retries (src/unnamed/part_001) *)
(* ===================================================================== *)

(** The earlier [Langbly] class: the same three operations over [post] and
    [check], one fetch per call, one error class.  Its object has the
    fields [apiKey], [baseUrl] and [timeout]; its methods run here on the
    same state and never read [maxRetries]. *)
Module Legacy.

Local Open Scope string_scope.

(** [await fetch(...)] outside any [try]: a rejection is thrown on. *)
Definition fetch_or_throw (srv : Server) (req : Request) : M Response :=
  out <- fetch srv req ;;
  match out with
  | Resolved resp => ret resp
  | Rejected message => throw (Error_ message)
  end.

(** [check(resp)]. *)
Definition check (resp : Response) : M unit :=
  if ok resp then ret tt
  else
    let '(message, code) := error_details resp in
    throw (LangblyError message (status resp) code).

(** [post(path, body)]. *)
Definition post (srv : Server) (path : string) (body : jsval) : M jsval :=
  base <- this_field baseUrl ;;
  key <- this_field apiKey ;;
  t <- this_field timeout ;;
  resp <- fetch_or_throw srv
            {| url := base ++ path; method := "POST";
               headers := [("Authorization", "Bearer " ++ key);
                           ("Content-Type", "application/json")];
               body := Some body; signal := t |} ;;
  check resp ;;;
  resp_json resp.

(** [translate(text, options)]. *)
Definition translate (srv : Server) (text : TextArg)
    (options : TranslateOptions.t) : M Translated :=
  let q := match text with Batch l => l | Single s => [s] end in
  let body := translate_body q options in
  data <- post srv "/language/translate/v2" body ;;
  d <- prop "data" data ;;
  ts <- prop "translations" d ;;
  translations <- array_map (to_translation options) ts ;;
  ret (match text with
       | Batch _ => Many translations
       | Single _ => One (hd_error translations)
       end).

(** [detect(text)]. *)
Definition detect (srv : Server) (text : string) : M Detection :=
  data <- post srv "/language/translate/v2/detect" (JObj [("q", JStr text)]) ;;
  d <- prop "data" data ;;
  ds <- prop "detections" d ;;
  d0 <- index0 ds ;;
  det <- index0 d0 ;;
  lang <- prop "language" det ;;
  conf <- prop "confidence" det ;;
  ret {| language := lang; confidence := nullish_or conf (JNum (num 0)) |}.

(** [languages(options)]; a fetch without [method] is a GET. *)
Definition languages (srv : Server) (target : option string)
  : M (list Language) :=
  let qs :=
    if truthy target
    then "target=" ++ FormUrlencoded.encode (or_default target "")
    else "" in
  let path :=
    "/language/translate/v2/languages"
    ++ (if negb (String.eqb qs "") then "?" ++ qs else "") in
  base <- this_field baseUrl ;;
  key <- this_field apiKey ;;
  t <- this_field timeout ;;
  resp <- fetch_or_throw srv
            {| url := base ++ path; method := "GET";
               headers := [("Authorization", "Bearer " ++ key)];
               body := None; signal := t |} ;;
  check resp ;;;
  data <- resp_json resp ;;
  d <- prop "data" data ;;
  ls <- prop "languages" d ;;
  array_map (fun lang =>
               c <- prop "language" lang ;;
               n <- prop "name" lang ;;
               ret {| code := c; name := n |}) ls.

(** The request of [post]. *)
Definition post_request (c : Langbly) (path : string) (body : jsval)
  : Request :=
  {| url := baseUrl c ++ path; method := "POST";
     headers := [("Authorization", "Bearer " ++ apiKey c);
                 ("Content-Type", "application/json")];
     body := Some body; signal := timeout c |}.

End Legacy.

(** One [post], outcome by outcome. *)
Lemma legacy_post_run srv path b st :
  let req := Legacy.post_request (this st) path b in
  Legacy.post srv path b st =
  (match srv (fetch_count (trace st)) req with
   | Rejected message => Throw (Error_ message)
   | Resolved resp =>
       if ok resp then
         match json resp with
         | Some data => Ok data
         | None => Throw SyntaxError
         end
       else Throw (LangblyError (fst (error_details resp)) (status resp)
                                (snd (error_details resp)))
   end, after st [EvFetch req]).
Proof.
  intros req. unfold Legacy.post.
  rewrite !bind_this_field. fold (Legacy.post_request (this st) path b).
  fold req. unfold Legacy.fetch_or_throw. rewrite bind_assoc.
  unfold bind at 1. unfold fetch at 1. cbv beta iota. fold (after st [EvFetch req]).
  destruct (srv (fetch_count (trace st)) req) as [resp | message];
    [ | reflexivity].
  unfold bind at 1. cbn [ret]. unfold bind at 1.
  unfold Legacy.check. destruct (ok resp).
  - cbn [ret]. unfold resp_json. destruct (json resp); reflexivity.
  - destruct (error_details resp) as [message code]. reflexivity.
Qed.

(** The reading of a parsed body, shared by both clients. *)
Lemma translations_of_body input options data st1 :
  (d <- prop "data" data ;;
   ts <- prop "translations" d ;;
   translations <- array_map (to_translation options) ts ;;
   ret (match input with
        | Batch _ => Many translations
        | Single _ => One (hd_error translations)
        end)) st1 =
  (match own_prop "translations" (own_prop "data" data) with
   | JArr items =>
       if forallb not_nullish items then
         let translations := map (translation_record options) items in
         Ok (match input with
             | Batch _ => Many translations
             | Single _ => One (hd_error translations)
             end)
       else Throw TypeError
   | _ => Throw TypeError
   end, st1).
Proof.
  nullish_step data Hdata.
  { destruct data; cbn in Hdata; try discriminate Hdata; reflexivity. }
  nullish_step (own_prop "data" data) Hd.
  { destruct (own_prop "data" data); cbn in Hd; try discriminate Hd;
      reflexivity. }
  destruct (own_prop "translations" (own_prop "data" data))
    as [ | | | | | items | ]; cbn [array_map]; try reflexivity.
  unfold bind. rewrite mapM_to_translation_run.
  destruct (forallb not_nullish items); reflexivity.
Qed.

(** On an answer that the retrying client does not retry (an [ok]
    response, or a status outside 429, 500, 502, 503, 504), [translate]
    behaves as in the earlier client: one fetch each, to the same URL with
    the same body, the new request having the [User-Agent] header in
    addition; the same result for an [ok] response; the same [LangblyError]
    for a failure, except that 401 is now an [AuthenticationError] with the
    same message. *)
Theorem translate_agrees_with_legacy srv input options st resp :
  0 <= maxRetries (this st) ->
  (forall r, srv (fetch_count (trace st)) r = Resolved resp) ->
  ok resp = true \/ retriable (status resp) = false ->
  let q := texts_of input in
  let new_req := translate_request (this st) q options in
  let old_req := Legacy.post_request (this st) "/language/translate/v2"
                   (translate_body q options) in
  url new_req = url old_req /\ method new_req = method old_req /\
  body new_req = body old_req /\ signal new_req = signal old_req /\
  headers new_req =
    [("Authorization", "Bearer " ++ apiKey (this st))%string;
     ("User-Agent", "langbly-js/0.1.0"%string);
     ("Content-Type", "application/json"%string)] /\
  headers old_req =
    [("Authorization", "Bearer " ++ apiKey (this st))%string;
     ("Content-Type", "application/json"%string)] /\
  exists r_new r_old,
    translate srv input options st = (r_new, after st [EvFetch new_req]) /\
    Legacy.translate srv input options st
      = (r_old, after st [EvFetch old_req]) /\
    (ok resp = true -> r_new = r_old) /\
    (ok resp = false -> status resp <> 401 -> r_new = r_old) /\
    (ok resp = false -> status resp = 401 ->
     r_new = Throw (AuthenticationError (fst (error_details resp))) /\
     r_old = Throw (LangblyError (fst (error_details resp)) 401
                                 (snd (error_details resp)))).
Proof.
  intros Hn Hsrv Hfinal q new_req old_req.
  repeat (split; [reflexivity | ]).
  assert (Hfetch :
    fetchWithRetry srv (baseUrl (this st) ++ "/language/translate/v2")%string
      (post_init (translate_body (texts_of input) options)) st =
    (final_result (this st) (Resolved resp), after st [EvFetch new_req])).
  { rewrite fetchWithRetry_loop, (fetchLoop_outcome srv _ _ _ 0).
    - rewrite Nat.add_0_r, Hsrv. reflexivity.
    - cbn. lia.
    - intros j Hj. lia.
    - right. rewrite Nat.add_0_r, Hsrv. cbn [retry_worthy].
      destruct Hfinal as [H | H]; rewrite H; [reflexivity | ].
      apply andb_false_r. }
  assert (Hold :
    Legacy.translate srv input options st =
    bind (Legacy.post srv "/language/translate/v2"
            (translate_body (texts_of input) options))
         (fun data =>
            d <- prop "data" data ;;
            ts <- prop "translations" d ;;
            translations <- array_map (to_translation options) ts ;;
            ret (match input with
                 | Batch _ => Many translations
                 | Single _ => One (hd_error translations)
                 end)) st) by reflexivity.
  pose proof (legacy_post_run srv "/language/translate/v2"
                (translate_body (texts_of input) options) st) as Hpost.
  cbv zeta in Hpost. rewrite Hsrv in Hpost. fold q old_req in Hpost.
  cbn [final_result] in Hfetch.
  destruct (ok resp) eqn:Hok.
  - rewrite translate_bind, (bind_Ok _ _ _ _ _ Hfetch).
    rewrite Hold. fold q. unfold resp_json.
    destruct (json resp) as [data | ].
    + rewrite (bind_Ok _ _ _ data (after st [EvFetch new_req]) eq_refl).
      rewrite (bind_Ok _ _ _ _ _ Hpost). rewrite !translations_of_body.
      eexists. eexists. split; [reflexivity | ]. split; [reflexivity | ].
      split; [reflexivity | ]. split; discriminate.
    + rewrite (bind_Throw _ _ _ _ _ Hpost).
      eexists. eexists. split; [reflexivity | ]. split; [reflexivity | ].
      split; [reflexivity | ]. split; discriminate.
  - rewrite translate_bind. rewrite (bind_Throw _ _ _ _ _ Hfetch).
    rewrite Hold. fold q. rewrite (bind_Throw _ _ _ _ _ Hpost).
    eexists. eexists. split; [reflexivity | ]. split; [reflexivity | ].
    split; [discriminate | ].
    assert (Hretry : retriable (status resp) = false).
    { destruct Hfinal as [H | H]; [discriminate | exact H]. }
    unfold statusError. destruct (error_details resp) as [message code].
    cbn [fst snd]. split.
    + intros _ Hn401. apply Z.eqb_neq in Hn401. rewrite Hn401.
      destruct (Z.eqb_spec (status resp) 429) as [H429 | _]; [ | reflexivity].
      rewrite H429 in Hretry. discriminate Hretry.
    + intros _ H401. rewrite H401. split; reflexivity.
Qed.

Lemma translate_agrees_with_legacy_witness :
  fst (translate (fun _ _ => Resolved not_found) (Single "Hello") to_german
         demo_state) =
  fst (Legacy.translate (fun _ _ => Resolved not_found) (Single "Hello")
         to_german demo_state).
Proof.
  destruct (translate_agrees_with_legacy (fun _ _ => Resolved not_found)
              (Single "Hello") to_german demo_state not_found)
    as [_ [_ [_ [_ [_ [_ [r_new [r_old [Hnew [Hold [_ [Hsame _]]]]]]]]]]]].
  - cbn. lia.
  - reflexivity.
  - right. reflexivity.
  - rewrite Hnew, Hold. cbn [fst]. apply Hsame; [reflexivity | ].
    cbn. discriminate.
Defined.

Lemma detect_confidence_witness :
  fst (detect (fun _ _ => Resolved detected) "Bonjour" demo_state) =
    Ok {| language := JStr "fr"; confidence := JNum (num 0) |} /\
  is_nullish (confidence {| language := JStr "fr";
                            confidence := JNum (num 0) |}) = false.
Proof.
  assert (Hrun : fst (detect (fun _ _ => Resolved detected) "Bonjour"
                        demo_state) =
                 Ok {| language := JStr "fr"; confidence := JNum (num 0) |}).
  { vm_compute. reflexivity. }
  split; [exact Hrun | ].
  apply (detect_confidence (fun _ _ => Resolved detected) "Bonjour"
           demo_state _ Hrun).
Defined.

Lemma legacy_quiet_tail_translate input options data :
  quiet (d <- prop "data" data ;;
         ts <- prop "translations" d ;;
         translations <- array_map (to_translation options) ts ;;
         ret (match input with
              | Batch _ => Many translations
              | Single _ => One (hd_error translations)
              end)).
Proof.
  repeat (apply quiet_bind; [apply quiet_prop | intro]).
  apply quiet_bind; [ | intro; apply quiet_ret].
  apply quiet_array_map. apply quiet_to_translation.
Qed.

(** The earlier client never retries and never sleeps: [post] makes exactly
    one fetch, after which a rejection is thrown on as it is, a response
    that is not [ok] becomes a plain [LangblyError] with the status of the
    response (also for 401 and 429) and the code of the body, and an [ok]
    response gives its parsed body or a [SyntaxError]; and that one fetch
    is all that [translate] and [detect] do. *)
Theorem legacy_post_once srv st :
  (forall path b,
      Legacy.post srv path b st =
      (match srv (fetch_count (trace st))
                 (Legacy.post_request (this st) path b) with
       | Rejected message => Throw (Error_ message)
       | Resolved resp =>
           if ok resp then
             match json resp with
             | Some data => Ok data
             | None => Throw SyntaxError
             end
           else Throw (LangblyError (fst (error_details resp)) (status resp)
                                    (snd (error_details resp)))
       end,
       after st [EvFetch (Legacy.post_request (this st) path b)])) /\
  (forall input options,
      snd (Legacy.translate srv input options st) =
      after st [EvFetch (Legacy.post_request (this st)
                           "/language/translate/v2"
                           (translate_body (texts_of input) options))]) /\
  (forall s,
      snd (Legacy.detect srv s st) =
      after st [EvFetch (Legacy.post_request (this st)
                           "/language/translate/v2/detect"
                           (JObj [("q", JStr s)]))]).
Proof.
  split; [intros path b; apply legacy_post_run | ]. split.
  - intros input options. unfold Legacy.translate.
    rewrite snd_bind_quiet by (intro; apply legacy_quiet_tail_translate).
    change (match input with Batch l => l | Single s => [s] end)
      with (texts_of input).
    now rewrite legacy_post_run.
  - intros s. unfold Legacy.detect. rewrite snd_bind_quiet.
    + now rewrite legacy_post_run.
    + intros data.
      repeat (apply quiet_bind; [apply quiet_prop | intro]).
      repeat (apply quiet_bind; [apply quiet_index0 | intro]).
      repeat (apply quiet_bind; [apply quiet_prop | intro]).
      apply quiet_ret.
Qed.


Lemma thrown_error_carries_status_witness :
  exists e,
    throwForStatus not_found demo_state = (Throw e, demo_state) /\
    exn_status e = Some 404 /\
    exn_message e = Some "No such language"%string.
Proof.
  destruct (thrown_error_carries_status not_found demo_state)
    as [e [Hthrow [Hstatus [_ [_ Hmessage]]]]].
  exists e. split; [exact Hthrow | ]. split; [exact Hstatus | ].
  apply (Hmessage _ _ eq_refl eq_refl).
Defined.

Lemma operations_requests_witness :
  exists tr,
    snd (languages always_unavailable (Some "en") demo_state)
      = after demo_state tr /\
    forall r, In (EvFetch r) tr ->
      signed_by demo_client r /\ method r = "GET" /\
      assoc "Content-Type" (headers r) = None /\
      url r = languages_url demo_client (Some "en") /\
      body r = None.
Proof.
  apply (proj2 (proj2 (operations_requests always_unavailable demo_state))
           (Some "en"%string)).
Defined.

Lemma legacy_post_once_witness :
  Legacy.post (fun _ _ => Resolved hinted) "/language/translate/v2"
    (JObj [("q", JStr "Hello")]) demo_state =
  (Throw (LangblyError (JStr "Too Many Requests") 429 (JStr "")),
   after demo_state
     [EvFetch (Legacy.post_request demo_client "/language/translate/v2"
                 (JObj [("q", JStr "Hello")]))]).
Proof.
  apply (proj1 (legacy_post_once (fun _ _ => Resolved hinted) demo_state)
           "/language/translate/v2"%string (JObj [("q", JStr "Hello")])).
Defined.
